(** * ScriptsizeFSM: the dispatch engine of [scriptsizefsm.hpp] and its consumers

    The header is a class template library.  Its engine ([FSM::react],
    [FSM::reset], [FSM::transit], [FSM::is_in_state], [FSM::start] and the
    free [start]) is embedded below as functions over a store of FSM objects.
    The classes a consumer writes (its generic state, its concrete states,
    its FSM child class) are the parameters of the embedding; the bodies of
    their member functions are terms of a small command type [code], whose
    commands are the operations a state has on the [fsm] pointer it is given. *)

From Stdlib Require Import ZArith List SpecFloat Ascii.
From stdpp Require Import base option list gmap strings.

Module scriptsizefsm.

(** Address of an FSM object (the caller's variable [fsm], [fsm1], ...). *)
Definition addr := positive.
Bind Scope positive_scope with addr.

Section engine.

(** [StateT]: the concrete state classes of one FSM type.
    [Event]:  the event values of all event classes the generic state
              declares a reaction for.
    [Fields]: the data members the FSM child class adds.
    [Args]:   the extra constructor arguments of the FSM child class. *)
Context {StateT Event Fields Args : Type} `{EqDecision StateT}.

(** ** The state registry (hpp 26-33)

    [_state_instance<T_State>::value] is one static object per state
    class.  A pointer to a state is the address of one of these objects;
    as in a block-based memory model the address of a static object is
    named by the object it belongs to, so distinct static objects have
    distinct addresses. *)
Inductive state_ptr : Type :=
| instance_addr (T : StateT).

Definition _state_instance (T : StateT) : state_ptr := instance_addr T.

(** Dynamic type of the object a state pointer points at. *)
Definition dynamic_type (s : state_ptr) : StateT :=
  match s with instance_addr T => T end.

#[export] Instance state_ptr_eq_dec : EqDecision state_ptr.
Proof. solve_decision. Defined.

(** ** FSM objects (hpp 202-220, plus the members of the child class) *)
Record FSM : Type := mkFSM {
  this_ : addr;
  init_state_ : state_ptr;
  current_state_ : state_ptr;
  members : Fields
}.

Definition with_current (o : FSM) (s : state_ptr) : FSM :=
  mkFSM (this_ o) (init_state_ o) s (members o).

Definition with_members (o : FSM) (d : Fields) : FSM :=
  mkFSM (this_ o) (init_state_ o) (current_state_ o) d.

(** ** Bodies of consumer member functions

    What a state's [entry], [exit] or [react], or the child's [resetter],
    can do with the FSM it is handed: read and write the child's data
    members, ask [is_in_state], call the [transit] helper (hpp 100-104),
    and call the public [react] and [reset]. *)
Inductive code : Type :=
| Return
| GetMembers (k : Fields → code)
| SetMembers (d : Fields) (k : code)
| IsInState (T : StateT) (k : bool → code)
| DoTransit (T : StateT) (k : code)
| DoReact (e : Event) (k : code)
| DoReset (k : code).

(** The virtual member functions a class declares; [None] is "not
    declared here, inherited". *)
Record overrides : Type := mkOverrides {
  o_entry : option code;
  o_exit : option code;
  o_react : Event → option code
}.

(** The classes of a consumer: its generic state (derived from
    [State<T_FSM>]), its concrete states (derived from the generic state)
    and its FSM child class (constructor and [resetter]). *)
Record consumer : Type := mkConsumer {
  generic_state : overrides;
  concrete_state : StateT → overrides;
  child_ctor : Args → Fields;
  child_resetter : option code
}.

(** Defaults of the library classes: [State::entry] (hpp 71),
    [State::exit] (hpp 79), [State::react] (hpp 90), [FSM::resetter]
    (hpp 200).  All have the empty body. *)
Definition State_entry : code := Return.
Definition State_exit : code := Return.
Definition State_react (e : Event) : code := Return.
Definition FSM_resetter : code := Return.

(** ** The calls the engine makes, in the order it makes them *)
Inductive call : Type :=
| CallExit (s : state_ptr) (fsm : addr)
| CallEntry (s : state_ptr) (fsm : addr)
| CallReact (s : state_ptr) (fsm : addr) (e : Event)
| CallResetter (self : addr)
| Assign (self : addr) (s : state_ptr).

(** ** Actions on the store of FSM objects

    An action takes the store, and either fails (it ran out of fuel, or it
    went through a pointer to no object) or returns the new store with the
    calls it made. *)
Definition action : Type := gmap addr FSM → option (gmap addr FSM * list call).

Definition skip : action := λ h, Some (h, []).

Definition fail : action := λ _, None.

Definition emit (c : call) : action := λ h, Some (h, [c]).

Definition and_then (m1 m2 : action) : action := λ h,
  match m1 h with
  | Some (h1, t1) =>
      match m2 h1 with
      | Some (h2, t2) => Some (h2, t1 ++ t2)
      | None => None
      end
  | None => None
  end.

Definition with_object (p : addr) (k : FSM → action) : action := λ h,
  match h !! p with
  | Some o => k o h
  | None => None
  end.

Definition update_object (p : addr) (f : FSM → FSM) : action :=
  with_object p (λ o h, Some (<[p := f o]> h, [])).

Notation "m1 >> m2" := (and_then m1 m2) (at level 62, right associativity).

(** ** Virtual dispatch

    The final overrider of a virtual function in the dynamic type of the
    state object: the concrete state's own declaration if it has one,
    otherwise the generic state's, otherwise the library default. *)
Variable C : consumer.

Definition virtual_entry (s : state_ptr) : code :=
  default (default State_entry (o_entry (generic_state C)))
          (o_entry (concrete_state C (dynamic_type s))).

Definition virtual_exit (s : state_ptr) : code :=
  default (default State_exit (o_exit (generic_state C)))
          (o_exit (concrete_state C (dynamic_type s))).

Definition virtual_react (s : state_ptr) (e : Event) : code :=
  default (default (State_react e) (o_react (generic_state C) e))
          (o_react (concrete_state C (dynamic_type s)) e).

Definition virtual_resetter : code :=
  default FSM_resetter (child_resetter C).

(** ** The engine (hpp 114-221)

    [invoke c p] runs the member function body [c] with [p] as its [fsm]
    argument (for [resetter]: as its [this]).  [self] is the address of the
    object the engine function is called on. *)
Section methods.

Variable invoke : code → addr → action.

(** [FSM::react] (hpp 144-148). *)
Definition FSM_react (self : addr) (e : Event) : action :=
  with_object self (λ o,
    emit (CallReact (current_state_ o) (this_ o) e) >>
    invoke (virtual_react (current_state_ o) e) (this_ o)).

(** [FSM::reset] (hpp 155-161). *)
Definition FSM_reset (self : addr) : action :=
  with_object self (λ o,
    emit (CallExit (current_state_ o) (this_ o)) >>
    invoke (virtual_exit (current_state_ o)) (this_ o)) >>
  with_object self (λ o,
    update_object self (λ o', with_current o' (init_state_ o)) >>
    emit (Assign self (init_state_ o))) >>
  (emit (CallResetter self) >> invoke virtual_resetter self) >>
  with_object self (λ o,
    emit (CallEntry (current_state_ o) (this_ o)) >>
    invoke (virtual_entry (current_state_ o)) (this_ o)).

(** [FSM::transit] (hpp 180-186). *)
Definition FSM_transit (self : addr) (T : StateT) : action :=
  with_object self (λ o,
    emit (CallExit (current_state_ o) (this_ o)) >>
    invoke (virtual_exit (current_state_ o)) (this_ o)) >>
  (update_object self (λ o, with_current o (_state_instance T)) >>
   emit (Assign self (_state_instance T))) >>
  with_object self (λ o,
    emit (CallEntry (current_state_ o) (this_ o)) >>
    invoke (virtual_entry (current_state_ o)) (this_ o)).

End methods.

(** [FSM::is_in_state] (hpp 168-172): pointer comparison, on a const
    object. *)
Definition FSM_is_in_state (o : FSM) (T : StateT) : bool :=
  bool_decide (current_state_ o = _state_instance T).

(** Running a member function body.  The fuel bounds how deep calls from
    bodies back into the engine may nest; a body that makes no such call
    runs on any fuel. *)
Fixpoint run (n : nat) : code → addr → action :=
  fix go (c : code) (fsm : addr) : action :=
    match c with
    | Return => skip
    | GetMembers k => with_object fsm (λ o, go (k (members o)) fsm)
    | SetMembers d k => update_object fsm (λ o, with_members o d) >> go k fsm
    | IsInState T k => with_object fsm (λ o, go (k (FSM_is_in_state o T)) fsm)
    | DoTransit T k =>
        match n with
        | O => fail
        | S m => FSM_transit (run m) fsm T >> go k fsm
        end
    | DoReact e k =>
        match n with
        | O => fail
        | S m => FSM_react (run m) fsm e >> go k fsm
        end
    | DoReset k =>
        match n with
        | O => fail
        | S m => FSM_reset (run m) fsm >> go k fsm
        end
    end.

(** The engine as a caller sees it. *)
Definition react (n : nat) : addr → Event → action := FSM_react (run n).
Definition reset (n : nat) : addr → action := FSM_reset (run n).
Definition transit (n : nat) : addr → StateT → action := FSM_transit (run n).

Definition is_in_state (self : addr) (T : StateT) (h : gmap addr FSM) : option bool :=
  o ← h !! self; Some (FSM_is_in_state o T).

(** The constructor of the FSM base class (hpp 192-195), called from the
    constructor of the child class, which initialises its own members from
    the remaining arguments.  [self] is the storage the object is built in:
    the caller's variable, as the returned prvalue is not copied. *)
Definition FSM_ctor (self : addr) (init_state : state_ptr) (d : Fields) : FSM :=
  mkFSM self init_state init_state d.

Definition T_FSM_Child (self : addr) (init_state : state_ptr) (args : Args) : FSM :=
  FSM_ctor self init_state (child_ctor C args).

(** [FSM::start] (hpp 127-131). *)
Definition FSM_start (T_State_Init : StateT) (args : Args) (self : addr) : action :=
  λ h, Some (<[self := T_FSM_Child self (_state_instance T_State_Init) args]> h, []).

(** The free function [start] (hpp 230-234). *)
Definition start (T_State_Init : StateT) (args : Args) (self : addr) : action :=
  FSM_start T_State_Init args self.

(** ** Notions used to state the properties *)

(** A body that makes no call back into the engine. *)
Inductive leaf : code → Prop :=
| leaf_Return : leaf Return
| leaf_GetMembers k : (∀ d, leaf (k d)) → leaf (GetMembers k)
| leaf_SetMembers d k : leaf k → leaf (SetMembers d k)
| leaf_IsInState T k : (∀ b, leaf (k b)) → leaf (IsInState T k).

(** The members a leaf body leaves behind in the object it is run on. *)
Fixpoint leaf_members (c : code) (o : FSM) : Fields :=
  match c with
  | GetMembers k => leaf_members (k (members o)) o
  | SetMembers d k => leaf_members k (with_members o d)
  | IsInState T k => leaf_members (k (FSM_is_in_state o T)) o
  | _ => members o
  end.

Definition after_leaf (c : code) (o : FSM) : FSM :=
  with_members o (leaf_members c o).




(** An object as [start] builds it at [self]: its [this_] is its own
    address. *)
Definition self_aware (self : addr) (o : FSM) : Prop := this_ o = self.

(** An action is local to the object [o] at [a] when, on every store that
    holds [o] at [a], it does the same thing: it fails, or it replaces [o]
    by one and the same object, making the same calls, and leaves the rest
    of the store alone.  The replacement has the [this_] and [init_state_]
    of [o]. *)
Definition local_on (a : addr) (o : FSM) (m : action) : Prop :=
  (∀ h, h !! a = Some o → m h = None) ∨
  (∃ o' t, this_ o' = this_ o ∧ init_state_ o' = init_state_ o ∧
     ∀ h, h !! a = Some o → m h = Some (<[a := o']> h, t)).

Definition local_at (a : addr) (m : action) : Prop :=
  ∀ o, self_aware a o → local_on a o m.

(** Driving FSM objects from outside: one engine call on one object. *)
Inductive op : Type :=
| OpReact (e : Event)
| OpTransit (T : StateT)
| OpReset.

Definition apply_op (n : nat) (self : addr) (x : op) : action :=
  match x with
  | OpReact e => react n self e
  | OpTransit T => transit n self T
  | OpReset => reset n self
  end.

Fixpoint drive (n : nat) (l : list (addr * op)) : action :=
  match l with
  | [] => skip
  | (self, x) :: l' => apply_op n self x >> drive n l'
  end.

(** If [reset] restored the state and the members of construction: after
    [start] and any calls on the object, a returning [reset] would leave the
    object in the initial state with the members its constructor gave it. *)
Definition reset_restores_construction : Prop :=
  ∀ n (T0 : StateT) (args : Args) (self : addr) (l : list op) h0 h t h' t',
    (start T0 args self >> drive n (map (pair self) l)) h0 = Some (h, t) →
    reset n self h = Some (h', t') →
    is_in_state self T0 h' = Some true
    ∧ ∃ o', h' !! self = Some o' ∧ members o' = child_ctor C args.

(** If [transit] always ended in its target: a [transit<T>] that returns,
    on an object built by [start], would leave [is_in_state<T>] true. *)
Definition transit_ends_in_target : Prop :=
  ∀ n (self : addr) (T : StateT) h o h' t,
    h !! self = Some o →
    self_aware self o →
    transit n self T h = Some (h', t) →
    is_in_state self T h' = Some true.

(** The calls of an interleaving that are made on the object at [a]. *)
Definition calls_on (a : addr) (l : list (addr * op)) : list (addr * op) :=
  filter (λ x, x.1 = a) l.

(** Two stores hold objects at the same addresses, with the same [this_]
    and [init_state_]. *)
Definition same_identity (h h' : gmap addr FSM) : Prop :=
  ∀ a, match h !! a, h' !! a with
       | Some o, Some o' => this_ o' = this_ o ∧ init_state_ o' = init_state_ o
       | None, None => True
       | _, _ => False
       end.

Definition keeps_identity (m : action) : Prop :=
  ∀ h h' t, m h = Some (h', t) → same_identity h h'.

(** The implicit copy constructor of the child class: the object at [dst]
    gets the members of the object at [src], base class members included
    (neither class declares a copy constructor). *)
Definition T_FSM_Child_copy (src dst : addr) : action :=
  with_object src (λ o h, Some (<[dst := o]> h, [])).

End engine.

Notation "m1 >> m2" := (and_then m1 m2) (at level 62, right associativity).

Arguments state_ptr : clear implicits.
Arguments FSM : clear implicits.
Arguments code : clear implicits.
Arguments overrides : clear implicits.
Arguments consumer : clear implicits.
Arguments call : clear implicits.
Arguments action : clear implicits.
Arguments op : clear implicits.

End scriptsizefsm.

(** * The consumers under [src/tests] *)

(** ** [tests/extended_switch.cpp] (and [examples/extended_switch.cpp]) *)
Module ExtendedSwitch.
Import scriptsizefsm.

(** A C++ [double] is an IEEE 754 binary64 number. *)
Definition double : Type := spec_float.

Definition double_of_Z (z : Z) : double := binary_normalize 53 1024 z 0 false.

Arguments double_of_Z : simpl never.

(** [==] on doubles. *)
Definition double_eq (x y : double) : bool := SFeqb x y.

Inductive StateT : Type := OnState | OffState.

#[export] Instance StateT_eq_dec : EqDecision StateT.
Proof. solve_decision. Defined.

Inductive Event : Type :=
| OnEvent (current : double)
| OffEvent.

Record Fields : Type := mkFields {
  initial_current_ : double;
  current_ : double
}.

Abbreviation code := (scriptsizefsm.code StateT Event Fields).

(** [FSM::setCurrent] (lines 66-69). *)
Definition setCurrent (current : double) (k : code) : code :=
  GetMembers (λ d, SetMembers (mkFields (initial_current_ d) current) k).

(** [GenericState] (lines 30-36). *)
Definition GenericState : overrides StateT Event Fields :=
  mkOverrides (Some Return) None (λ e, Some Return).

(** [OnState::react] (lines 85-93). *)
Definition OnState_react (e : Event) : code :=
  match e with
  | OnEvent current => setCurrent current Return
  | OffEvent => DoTransit OffState Return
  end.

(** [OffState::entry] (lines 95-98). *)
Definition OffState_entry : code := setCurrent (double_of_Z 0) Return.

(** [OffState::react] (lines 100-104); [OffState] declares no reaction to
    [OffEvent]. *)
Definition OffState_react (e : Event) : option code :=
  match e with
  | OnEvent current => Some (setCurrent current (DoTransit OnState Return))
  | OffEvent => None
  end.

Definition states (T : StateT) : overrides StateT Event Fields :=
  match T with
  | OnState => mkOverrides None None (λ e, Some (OnState_react e))
  | OffState => mkOverrides (Some OffState_entry) None OffState_react
  end.

(** [FSM::resetter] (lines 74-77). *)
Definition resetter : code :=
  GetMembers (λ d, setCurrent (initial_current_ d) Return).

(** The constructor of [FSM] (lines 70-73). *)
Definition FSM_fields (current : double) : Fields := mkFields current current.

Definition classes : consumer StateT Event Fields double :=
  mkConsumer GenericState states FSM_fields (Some resetter).

(** An FSM object of this consumer at [self], started in [T_init] with
    current [initial], now in [T] with current [current]. *)
Definition switch_object (self : addr) (T_init T : StateT) (initial current : Z)
  : FSM StateT Fields :=
  mkFSM self (_state_instance T_init) (_state_instance T)
        (mkFields (double_of_Z initial) (double_of_Z current)).

(** [FSM::getCurrent] (lines 59-62). *)
Definition getCurrent (self : addr) (h : gmap addr (FSM StateT Fields)) : option double :=
  o ← h !! self; Some (current_ (members o)).

(** What the classes amount to: the state and the current after a call, as
    a function of the state and the current before.  [T0] and [initial] are
    the initial state and [initial_current_]. *)
Definition switch_react (s : StateT * double) (e : Event) : StateT * double :=
  match s.1, e with
  | _, OnEvent current => (OnState, current)
  | OnState, OffEvent => (OffState, double_of_Z 0)
  | OffState, OffEvent => s
  end.

Definition entered (T : StateT) (current : double) : StateT * double :=
  match T with
  | OnState => (OnState, current)
  | OffState => (OffState, double_of_Z 0)
  end.

Definition switch_op (T0 : StateT) (initial : double) (s : StateT * double)
    (x : op StateT Event) : StateT * double :=
  match x with
  | OpReact e => switch_react s e
  | OpTransit T => entered T s.2
  | OpReset => entered T0 initial
  end.

(** The FSM object at [self] started in [T0] with [initial], now in state
    [s.1] with current [s.2]. *)
Definition switch_in (self : addr) (T0 : StateT) (initial : double)
    (s : StateT * double) : FSM StateT Fields :=
  mkFSM self (_state_instance T0) (_state_instance s.1) (mkFields initial s.2).

(** The test's [fsm.getCurrent() == x]. *)
Definition current_equals (self : addr) (x : double)
    (h : gmap addr (FSM StateT Fields)) : option bool :=
  c ← getCurrent self h; Some (double_eq c x).

End ExtendedSwitch.

(** ** [tests/simple_switch.cpp] and [tests/multiple_instances.cpp]

    The two files declare the same classes. *)
Module SimpleSwitch.
Import scriptsizefsm.

Inductive StateT : Type := OnState | OffState.

#[export] Instance StateT_eq_dec : EqDecision StateT.
Proof. solve_decision. Defined.

Inductive Event : Type := OnEvent | OffEvent.

Abbreviation code := (scriptsizefsm.code StateT Event unit).

Definition GenericState : overrides StateT Event unit :=
  mkOverrides None None (λ e, Some Return).

Definition OnState_react (e : Event) : option code :=
  match e with
  | OnEvent => None
  | OffEvent => Some (DoTransit OffState Return)
  end.

Definition OffState_react (e : Event) : option code :=
  match e with
  | OnEvent => Some (DoTransit OnState Return)
  | OffEvent => None
  end.

Definition states (T : StateT) : overrides StateT Event unit :=
  match T with
  | OnState => mkOverrides None None OnState_react
  | OffState => mkOverrides None None OffState_react
  end.

Definition classes : consumer StateT Event unit unit :=
  mkConsumer GenericState states (λ _, tt) None.

(** What the classes amount to: the state after a call as a function of the
    state before.  [T0] is the initial state. *)
Definition switch_react (s : StateT) (e : Event) : StateT :=
  match s, e with
  | OnState, OffEvent => OffState
  | OffState, OnEvent => OnState
  | _, _ => s
  end.

Definition switch_op (T0 : StateT) (s : StateT) (x : op StateT Event) : StateT :=
  match x with
  | OpReact e => switch_react s e
  | OpTransit T => T
  | OpReset => T0
  end.

(** The FSM object at [self] started in [T0], now in state [s]. *)
Definition switch_in (self : addr) (T0 s : StateT) : FSM StateT unit :=
  mkFSM self (_state_instance T0) (_state_instance s) tt.

End SimpleSwitch.


(** ** States that call [transit] from [entry] and [exit]

    No consumer under [src] does this; these classes exercise the engine on
    it.  [Relay::entry] calls [transit<Idle>]; [Loop::exit] calls
    [transit<Idle>]. *)
Module Reentrant.
Import scriptsizefsm.

Inductive StateT : Type := Idle | Relay | Loop.

#[export] Instance StateT_eq_dec : EqDecision StateT.
Proof. solve_decision. Defined.

Definition states (T : StateT) : overrides StateT unit unit :=
  match T with
  | Idle => mkOverrides None None (λ _, None)
  | Relay => mkOverrides (Some (DoTransit Idle Return)) None (λ _, None)
  | Loop => mkOverrides None (Some (DoTransit Idle Return)) (λ _, None)
  end.

Definition classes : consumer StateT unit unit unit :=
  mkConsumer (mkOverrides None None (λ _, None)) states (λ _, tt) None.

End Reentrant.

(** ** [examples/multiple_instances.cpp]: the program

    The classes are the ones of [SimpleSwitch].  [main] talks to the
    terminal.  It is modelled on the inputs on which it returns: the ones
    that hold a [q] among their characters that are not white space.  Such
    an input is some text [typed], then that [q], then anything; [main]
    returns before it reads past the [q].  On an input without [q] the
    program goes on extracting from the exhausted stream and switches on a
    [c] that was never set: those runs are not modelled. *)
Module MultipleInstancesExample.
Import scriptsizefsm SimpleSwitch.

(** One [<<] chain on [std::cout] or [std::cerr]. *)
Inductive output : Type :=
| Cout (s : string)
| Cerr (s : string).

(** [std::endl] writes a newline. *)
Definition endl : string := String "010"%char EmptyString.

(** White space in the C locale: space, and tab to carriage return. *)
Definition isspace (c : ascii) : bool :=
  let k := nat_of_ascii c in
  Nat.eqb k 32 || (Nat.leb 9 k && Nat.leb k 13).

(** [std::cin >> c] on a [char] skips white space and takes the next
    character: the characters the program reads, one per extraction, are
    the characters of the input that are not white space. *)
Definition extracted (input : string) : list ascii :=
  List.filter (λ c, negb (isspace c)) (String.list_ascii_of_string input).

(** The two local variables of [main]. *)
Definition fsm1 : addr := 1.
Definition fsm2 : addr := 2.

Definition EXIT_SUCCESS : Z := 0.

(** The lambda [fsm_print_state] (lines 131-134). *)
Definition fsm_print_state (fsm : addr) (fsm_name : string)
    (h : gmap addr (FSM StateT unit)) : option output :=
  match is_in_state fsm OnState h with
  | Some b => Some (Cout (fsm_name +:+ " is " +:+ (if b then "on" else "off") +:+ endl))
  | None => None
  end.

(** The lambda [fsm_loop_function] (lines 104-127) writes a prompt, extracts
    a character and switches on it.  [fsm_loop_prompt] is what it writes
    first, [fsm_loop_switch] its [switch] statement and return value, given
    the character. *)
Definition fsm_loop_prompt (fsm_name : string) : output :=
  Cout (fsm_name +:+ ": 1 2 3 r q? ").

Definition fsm_loop_switch (n : nat) (fsm : addr) (c : ascii)
    (h : gmap addr (FSM StateT unit))
  : option (bool * gmap addr (FSM StateT unit) * list output) :=
  if Ascii.eqb c "1" then
    r ← react classes n fsm OnEvent h; Some (false, r.1, [])
  else if Ascii.eqb c "2" then
    r ← react classes n fsm OffEvent h; Some (false, r.1, [])
  else if Ascii.eqb c "3" then
    Some (false, h, [])
  else if Ascii.eqb c "r" then
    r ← reset classes n fsm h; Some (false, r.1, [])
  else if Ascii.eqb c "q" then
    Some (true, h, [])
  else
    Some (false, h, [Cerr ("Wrong usage!" +:+ endl)]).

(** How a run ends: [main] returns, or an engine call does not return. *)
Inductive outcome : Type :=
| Returned (status : Z) (out : list output)
| Stuck (out : list output).

Definition after_output (out : list output) (r : outcome) : outcome :=
  match r with
  | Returned status out' => Returned status (out ++ out')
  | Stuck out' => Stuck (out ++ out')
  end.

(** One call [if(fsm_loop_function(fsm, fsm_name)) return EXIT_SUCCESS;]
    (lines 141-146) on the character [c], and then [rest]. *)
Definition fsm_loop_call (n : nat) (fsm : addr) (fsm_name : string) (c : ascii)
    (h : gmap addr (FSM StateT unit))
    (rest : gmap addr (FSM StateT unit) → outcome) : outcome :=
  match fsm_loop_switch n fsm c h with
  | None => Stuck [fsm_loop_prompt fsm_name]
  | Some (true, _, out) => Returned EXIT_SUCCESS (fsm_loop_prompt fsm_name :: out)
  | Some (false, h', out) => after_output (fsm_loop_prompt fsm_name :: out) (rest h')
  end.

(** The two [fsm_print_state] calls that end a round (lines 147-148). *)
Definition print_states (h : gmap addr (FSM StateT unit))
    (rest : outcome) : outcome :=
  match fsm_print_state fsm1 "FSM1" h, fsm_print_state fsm2 "FSM2" h with
  | Some p1, Some p2 => after_output [p1; p2] rest
  | _, _ => Stuck []
  end.

(** The [while(true)] loop of [main] (lines 140-149), on the characters
    [keys] followed by the closing [q]: when [keys] is used up, the next
    character extracted is that [q], on which [fsm_loop_function] returns
    true and [main] returns (what follows the call is not run). *)
Fixpoint main_loop (n : nat) (keys : list ascii)
    (h : gmap addr (FSM StateT unit)) : outcome :=
  match keys with
  | [] => fsm_loop_call n fsm1 "FSM1" "q" h (λ h1, Stuck [])
  | c1 :: keys1 =>
      fsm_loop_call n fsm1 "FSM1" c1 h (λ h1,
        match keys1 with
        | [] => fsm_loop_call n fsm2 "FSM2" "q" h1 (λ h2, Stuck [])
        | c2 :: keys2 =>
            fsm_loop_call n fsm2 "FSM2" c2 h1 (λ h2,
              print_states h2 (main_loop n keys2 h2))
        end)
  end.

Definition banner : output :=
  Cout ("Send events to FSM:" +:+ endl
        +:+ " OnEvent:    1" +:+ endl
        +:+ " OffEvent:   2" +:+ endl
        +:+ " no event:   3" +:+ endl
        +:+ "Press r to reset and q to quit" +:+ endl).

(** [main] (lines 91-150), on the input [typed], then [q], then anything. *)
Definition main (n : nat) (typed : string) : outcome :=
  match (start classes OffState tt fsm1 >> start classes OnState tt fsm2) ∅ with
  | Some (h, _) =>
      after_output [banner] (print_states h (main_loop n (extracted typed) h))
  | None => Stuck []
  end.

(** The program without the engine: the two switches as two states. *)
Definition key (T0 s : StateT) (c : ascii) : StateT :=
  if Ascii.eqb c "1" then switch_react s OnEvent
  else if Ascii.eqb c "2" then switch_react s OffEvent
  else if Ascii.eqb c "3" then s
  else if Ascii.eqb c "r" then T0
  else s.

Definition key_output (c : ascii) : list output :=
  if Ascii.eqb c "1" then []
  else if Ascii.eqb c "2" then []
  else if Ascii.eqb c "3" then []
  else if Ascii.eqb c "r" then []
  else if Ascii.eqb c "q" then []
  else [Cerr ("Wrong usage!" +:+ endl)].

Definition state_line (fsm_name : string) (s : StateT) : output :=
  Cout (fsm_name +:+ " is "
        +:+ (match s with OnState => "on" | OffState => "off" end) +:+ endl).

(** What the console writes from the prompt of [FSM1] on, the switches being
    in [s1] and [s2], on the characters [keys] followed by the closing
    [q]. *)
Fixpoint console_loop (keys : list ascii) (s1 s2 : StateT) : list output :=
  match keys with
  | [] => [fsm_loop_prompt "FSM1"]
  | c1 :: keys1 =>
      if Ascii.eqb c1 "q" then [fsm_loop_prompt "FSM1"]
      else
        fsm_loop_prompt "FSM1" :: key_output c1 ++
        match keys1 with
        | [] => [fsm_loop_prompt "FSM2"]
        | c2 :: keys2 =>
            if Ascii.eqb c2 "q" then [fsm_loop_prompt "FSM2"]
            else
              fsm_loop_prompt "FSM2" :: key_output c2
              ++ [state_line "FSM1" (key OffState s1 c1);
                  state_line "FSM2" (key OnState s2 c2)]
              ++ console_loop keys2 (key OffState s1 c1) (key OnState s2 c2)
        end
  end.

Definition console (typed : string) : list output :=
  [banner; state_line "FSM1" OffState; state_line "FSM2" OnState]
  ++ console_loop (extracted typed) OffState OnState.

End MultipleInstancesExample.

(** * Properties of the engine *)

Import scriptsizefsm.

Section engine_facts.

Context {StateT Event Fields Args : Type} `{EqDecision StateT}.
Variable C : consumer StateT Event Fields Args.

#[local] Abbreviation FSM := (FSM StateT Fields).
#[local] Abbreviation code := (code StateT Event Fields).
#[local] Abbreviation action := (action StateT Event Fields).
#[local] Abbreviation call := (call StateT Event).

Implicit Types (o : FSM) (h : gmap addr FSM) (c : code) (m : action)
  (self p a b : addr) (T : StateT) (e : Event) (n : nat).

(** ** Equations of [run] *)

Lemma run_Return n p : run C n Return p = skip.
Proof. by destruct n. Qed.

Lemma run_GetMembers n k p :
  run C n (GetMembers k) p = with_object p (λ o, run C n (k (members o)) p).
Proof. by destruct n. Qed.

Lemma run_SetMembers n d k p :
  run C n (SetMembers d k) p
  = (update_object p (λ o, with_members o d) >> run C n k p).
Proof. by destruct n. Qed.

Lemma run_IsInState n T k p :
  run C n (IsInState T k) p
  = with_object p (λ o, run C n (k (FSM_is_in_state o T)) p).
Proof. by destruct n. Qed.

Lemma run_DoTransit n T k p :
  run C (S n) (DoTransit T k) p = (transit C n p T >> run C (S n) k p).
Proof. done. Qed.

Lemma run_DoReact n e k p :
  run C (S n) (DoReact e k) p = (react C n p e >> run C (S n) k p).
Proof. done. Qed.

Lemma run_DoReset n k p :
  run C (S n) (DoReset k) p = (reset C n p >> run C (S n) k p).
Proof. done. Qed.

(** ** Objects and their updates *)

Lemma with_members_id o : with_members o (members o) = o.
Proof. by destruct o. Qed.

Lemma with_members_twice o d d' :
  with_members (with_members o d) d' = with_members o d'.
Proof. done. Qed.

Lemma after_leaf_this c o : this_ (after_leaf c o) = this_ o.
Proof. done. Qed.

Lemma after_leaf_current c o : current_state_ (after_leaf c o) = current_state_ o.
Proof. done. Qed.

Lemma after_leaf_init c o : init_state_ (after_leaf c o) = init_state_ o.
Proof. done. Qed.

(** ** Leaf bodies

    A leaf body run on an object changes the members of that object and
    nothing else, makes no call, and cannot fail. *)
Lemma run_leaf n c p :
  leaf c →
  ∀ h o, h !! p = Some o →
    run C n c p h = Some (<[p := after_leaf c o]> h, []).
Proof.
  induction 1 as [|k Hk IH|d k Hk IH|T k Hk IH]; intros h o Ho.
  - rewrite run_Return. unfold skip, after_leaf. simpl.
    by rewrite with_members_id, insert_id.
  - rewrite run_GetMembers. unfold with_object. rewrite Ho.
    by rewrite (IH _ h o Ho).
  - rewrite run_SetMembers. unfold and_then, update_object, with_object.
    rewrite Ho.
    rewrite (IH _ (with_members o d)) by apply lookup_insert_eq.
    by rewrite insert_insert_eq.
  - rewrite run_IsInState. unfold with_object. rewrite Ho.
    by rewrite (IH _ h o Ho).
Qed.

(** ** [transit] and [reset] with leaf [entry], [exit] and [resetter] *)

Lemma transit_leaf n self T h o :
  h !! self = Some o →
  self_aware self o →
  leaf (virtual_exit C (current_state_ o)) →
  leaf (virtual_entry C (_state_instance T)) →
  transit C n self T h
  = Some (<[self := after_leaf (virtual_entry C (_state_instance T))
                      (with_current (after_leaf (virtual_exit C (current_state_ o)) o)
                                    (_state_instance T))]> h,
          [CallExit (current_state_ o) self;
           Assign self (_state_instance T);
           CallEntry (_state_instance T) self]).
Proof.
  intros Ho Hself Hexit Hentry. unfold self_aware in Hself.
  unfold transit, FSM_transit, and_then, update_object, with_object, emit.
  rewrite Ho, Hself. rewrite (run_leaf n _ self Hexit h o Ho).
  rewrite !lookup_insert_eq. simpl. rewrite Hself.
  erewrite run_leaf; [|done|apply lookup_insert_eq].
  by rewrite !insert_insert_eq.
Qed.

Lemma reset_leaf n self h o :
  h !! self = Some o →
  self_aware self o →
  leaf (virtual_exit C (current_state_ o)) →
  leaf (virtual_resetter C) →
  leaf (virtual_entry C (init_state_ o)) →
  reset C n self h
  = Some (<[self := after_leaf (virtual_entry C (init_state_ o))
                      (after_leaf (virtual_resetter C)
                         (with_current (after_leaf (virtual_exit C (current_state_ o)) o)
                                       (init_state_ o)))]> h,
          [CallExit (current_state_ o) self;
           Assign self (init_state_ o);
           CallResetter self;
           CallEntry (init_state_ o) self]).
Proof.
  intros Ho Hself Hexit Hres Hentry. unfold self_aware in Hself.
  unfold reset, FSM_reset, and_then, update_object, with_object, emit.
  rewrite Ho, Hself. rewrite (run_leaf n _ self Hexit h o Ho).
  rewrite !lookup_insert_eq. simpl.
  erewrite run_leaf; [|done|apply lookup_insert_eq].
  rewrite !lookup_insert_eq. simpl. rewrite Hself.
  erewrite run_leaf; [|done|apply lookup_insert_eq].
  by rewrite !insert_insert_eq.
Qed.

(** ** Locality

    Every engine call on a self-aware object, whatever the bodies of the
    consumer do, reads and writes that object only. *)

Lemma local_skip a : local_at a (skip : action).
Proof.
  intros o Ho. right. exists o, []. repeat split.
  intros h Hh. unfold skip. by rewrite insert_id.
Qed.

Lemma local_fail a : local_at a (fail : action).
Proof. intros o Ho. by left. Qed.

Lemma local_emit a (x : call) : local_at a (emit x : action).
Proof.
  intros o Ho. right. exists o, [x]. repeat split.
  intros h Hh. unfold emit. by rewrite insert_id.
Qed.

Lemma local_and_then a m1 m2 :
  local_at a m1 → local_at a m2 → local_at a (m1 >> m2).
Proof.
  intros H1 H2 o Ho. unfold and_then.
  destruct (H1 o Ho) as [Hfail|(o1 & t1 & Hthis & Hinit & Hrun)].
  { left. intros h Hh. by rewrite (Hfail h Hh). }
  assert (self_aware a o1) as Ho1 by (unfold self_aware in *; congruence).
  destruct (H2 o1 Ho1) as [Hfail|(o2 & t2 & Hthis2 & Hinit2 & Hrun2)].
  - left. intros h Hh. rewrite (Hrun h Hh).
    by rewrite (Hfail (<[a:=o1]> h)) by apply lookup_insert_eq.
  - right. exists o2, (t1 ++ t2). split; [congruence|]. split; [congruence|].
    intros h Hh. rewrite (Hrun h Hh).
    rewrite (Hrun2 (<[a:=o1]> h)) by apply lookup_insert_eq.
    by rewrite insert_insert_eq.
Qed.

Lemma local_with_object a (k : FSM → action) :
  (∀ o, self_aware a o → local_on a o (k o)) →
  local_at a (with_object a k).
Proof.
  intros Hk o Ho. unfold with_object.
  destruct (Hk o Ho) as [Hfail|(o1 & t1 & Hthis & Hinit & Hrun)].
  - left. intros h Hh. rewrite Hh. by apply Hfail.
  - right. exists o1, t1. repeat split; try done.
    intros h Hh. rewrite Hh. by apply Hrun.
Qed.

Lemma local_update_object a (f : FSM → FSM) :
  (∀ o, this_ (f o) = this_ o ∧ init_state_ (f o) = init_state_ o) →
  local_at a (update_object a f : action).
Proof.
  intros Hf. unfold update_object. apply local_with_object.
  intros o Ho. right. exists (f o), []. destruct (Hf o). by repeat split.
Qed.

Section local_methods.

Variable invoke : code → addr → action.
Hypothesis invoke_local : ∀ c a, local_at a (invoke c a).

Lemma local_call a (x : FSM → call) (f : FSM → code) :
  local_at a (with_object a (λ o, emit (x o) >> invoke (f o) (this_ o))).
Proof.
  apply local_with_object. intros o Ho.
  assert (this_ o = a) as -> by done.
  by apply local_and_then; [apply local_emit|apply invoke_local|].
Qed.

Lemma FSM_react_local a e : local_at a (FSM_react C invoke a e).
Proof. unfold FSM_react. apply local_call. Qed.

Lemma FSM_transit_local a T : local_at a (FSM_transit C invoke a T).
Proof.
  unfold FSM_transit.
  apply local_and_then; [apply local_call|].
  apply local_and_then; [|apply local_call].
  apply local_and_then; [|apply local_emit].
  by apply local_update_object.
Qed.

Lemma FSM_reset_local a : local_at a (FSM_reset C invoke a).
Proof.
  unfold FSM_reset.
  apply local_and_then; [apply local_call|].
  apply local_and_then.
  - apply local_with_object. intros o Ho.
    apply local_and_then; [|apply local_emit|done].
    by apply local_update_object.
  - apply local_and_then; [|apply local_call].
    apply local_and_then; [apply local_emit|apply invoke_local].
Qed.

End local_methods.

Lemma run_local n : ∀ c a, local_at a (run C n c a).
Proof.
  induction n as [|n IHn]; intros c a;
    induction c as [|k IH|d k IH|T k IH|T k IH|e k IH|k IH].
  all: rewrite ?run_Return, ?run_GetMembers, ?run_SetMembers, ?run_IsInState,
         ?run_DoTransit, ?run_DoReact, ?run_DoReset.
  all: try apply local_skip; try apply local_fail.
  all: try (apply local_with_object; intros o Ho; by apply IH).
  all: try (apply local_and_then; [by apply local_update_object|apply IH]).
  - apply local_and_then; [by apply FSM_transit_local|apply IH].
  - apply local_and_then; [by apply FSM_react_local|apply IH].
  - apply local_and_then; [by apply FSM_reset_local|apply IH].
Qed.

Lemma apply_op_local n a (x : op StateT Event) : local_at a (apply_op C n a x).
Proof.
  destruct x; simpl.
  - apply FSM_react_local, run_local.
  - apply FSM_transit_local, run_local.
  - apply FSM_reset_local, run_local.
Qed.

(** ** [transit] and [reset] with arbitrary bodies

    What a returning [run] on a self-aware object looks like. *)
Lemma run_returns n c self h o h' t :
  h !! self = Some o →
  self_aware self o →
  run C n c self h = Some (h', t) →
  ∃ o1, h' = <[self := o1]> h ∧ self_aware self o1
        ∧ init_state_ o1 = init_state_ o.
Proof.
  intros Ho Hself Hrun.
  destruct (run_local n c self o Hself) as [Hfail|(o1 & t1 & Hthis & Hinit & Hr)].
  { rewrite (Hfail h Ho) in Hrun. done. }
  rewrite (Hr h Ho) in Hrun. injection Hrun as <- <-.
  exists o1. unfold self_aware in *. repeat split; congruence.
Qed.

Lemma transit_returns n self T h o h' t :
  h !! self = Some o →
  self_aware self o →
  transit C n self T h = Some (h', t) →
  ∃ o1 t1 o2 t2,
    run C n (virtual_exit C (current_state_ o)) self h = Some (<[self := o1]> h, t1)
    ∧ run C n (virtual_entry C (_state_instance T)) self
        (<[self := with_current o1 (_state_instance T)]> h)
      = Some (<[self := o2]> h, t2)
    ∧ h' = <[self := o2]> h
    ∧ t = CallExit (current_state_ o) self :: t1
          ++ Assign self (_state_instance T)
             :: CallEntry (_state_instance T) self :: t2.
Proof.
  intros Ho Hself. pose proof Hself as Hthis. unfold self_aware in Hthis.
  unfold transit, FSM_transit, and_then, update_object, with_object, emit.
  rewrite Ho, Hthis.
  destruct (run C n (virtual_exit C (current_state_ o)) self h)
    as [[h1 t1]|] eqn:Hexit; [|done].
  destruct (run_returns _ _ _ _ _ _ _ Ho Hself Hexit) as (o1 & -> & Hself1 & _).
  rewrite !lookup_insert_eq. simpl.
  assert (this_ o1 = self) as -> by done.
  rewrite !insert_insert_eq.
  destruct (run C n (virtual_entry C (_state_instance T)) self
              (<[self:=with_current o1 (_state_instance T)]> h))
    as [[h2 t2]|] eqn:Hentry; [|done].
  edestruct (run_returns n) as (o2 & Heq & _); [apply lookup_insert_eq| |apply Hentry|].
  { done. }
  rewrite insert_insert_eq in Heq. subst h2.
  intros [= <- <-]. by exists o1, t1, o2, t2.
Qed.

Lemma reset_returns n self h o h' t :
  h !! self = Some o →
  self_aware self o →
  reset C n self h = Some (h', t) →
  ∃ o1 t1 o2 t2 o3 t3,
    run C n (virtual_exit C (current_state_ o)) self h = Some (<[self := o1]> h, t1)
    ∧ run C n (virtual_resetter C) self (<[self := with_current o1 (init_state_ o)]> h)
      = Some (<[self := o2]> h, t2)
    ∧ run C n (virtual_entry C (current_state_ o2)) self (<[self := o2]> h)
      = Some (<[self := o3]> h, t3)
    ∧ h' = <[self := o3]> h
    ∧ t = CallExit (current_state_ o) self :: t1
          ++ Assign self (init_state_ o) :: CallResetter self :: t2
          ++ CallEntry (current_state_ o2) self :: t3.
Proof.
  intros Ho Hself. pose proof Hself as Hthis. unfold self_aware in Hthis.
  unfold reset, FSM_reset, and_then, update_object, with_object, emit.
  rewrite Ho, Hthis.
  destruct (run C n (virtual_exit C (current_state_ o)) self h)
    as [[h1 t1]|] eqn:Hexit; [|done].
  destruct (run_returns _ _ _ _ _ _ _ Ho Hself Hexit) as (o1 & -> & Hself1 & Hinit1).
  rewrite !lookup_insert_eq. simpl. rewrite !insert_insert_eq, Hinit1.
  destruct (run C n (virtual_resetter C) self
              (<[self:=with_current o1 (init_state_ o)]> h))
    as [[h2 t2]|] eqn:Hres; [|done].
  edestruct (run_returns n) as (o2 & Heq & Hself2 & _);
    [apply lookup_insert_eq| |apply Hres|]; [done|].
  rewrite insert_insert_eq in Heq. subst h2.
  rewrite lookup_insert_eq. assert (this_ o2 = self) as -> by done.
  destruct (run C n (virtual_entry C (current_state_ o2)) self (<[self:=o2]> h))
    as [[h3 t3]|] eqn:Hentry; [|done].
  edestruct (run_returns n) as (o3 & Heq & _);
    [apply lookup_insert_eq| |apply Hentry|]; [done|].
  rewrite insert_insert_eq in Heq. subst h3.
  intros [= <- <-]. by exists o1, t1, o2, t2, o3, t3.
Qed.

(** ** What no engine call changes

    Whatever the bodies do and whatever the objects in the store point at,
    an engine call neither adds nor removes an object, and leaves [this_]
    and [init_state_] of every object as they are. *)

Lemma same_identity_refl h : same_identity h h.
Proof. intros a. by destruct (h !! a). Qed.

Lemma same_identity_trans h1 h2 h3 :
  same_identity h1 h2 → same_identity h2 h3 → same_identity h1 h3.
Proof.
  intros H12 H23 a. specialize (H12 a). specialize (H23 a).
  destruct (h1 !! a), (h2 !! a), (h3 !! a); try done.
  destruct H12, H23. split; congruence.
Qed.

Lemma keeps_skip : keeps_identity (skip : action).
Proof. intros h h' t [= <- _]. apply same_identity_refl. Qed.

Lemma keeps_fail : keeps_identity (fail : action).
Proof. by intros h h' t. Qed.

Lemma keeps_emit (x : call) : keeps_identity (emit x : action).
Proof. intros h h' t [= <- _]. apply same_identity_refl. Qed.

Lemma keeps_and_then m1 m2 :
  keeps_identity m1 → keeps_identity m2 → keeps_identity (m1 >> m2).
Proof.
  intros H1 H2 h h' t. unfold and_then.
  destruct (m1 h) as [[h1 t1]|] eqn:E1; [|done].
  destruct (m2 h1) as [[h2 t2]|] eqn:E2; [|done].
  intros [= <- _]. eapply same_identity_trans; [by eapply H1|by eapply H2].
Qed.

Lemma keeps_with_object p (k : FSM → action) :
  (∀ o, keeps_identity (k o)) → keeps_identity (with_object p k).
Proof.
  intros Hk h h' t. unfold with_object.
  destruct (h !! p) as [o|]; [|done]. apply Hk.
Qed.

Lemma keeps_update_object p (f : FSM → FSM) :
  (∀ o, this_ (f o) = this_ o ∧ init_state_ (f o) = init_state_ o) →
  keeps_identity (update_object p f : action).
Proof.
  intros Hf h h' t. unfold update_object, with_object.
  destruct (h !! p) as [o|] eqn:Ho; [|done]. intros [= <- _] a.
  destruct (decide (a = p)) as [->|Hne].
  - rewrite Ho, lookup_insert_eq. apply Hf.
  - rewrite lookup_insert_ne by done. by destruct (h !! a).
Qed.

Section keeps_methods.

Variable invoke : code → addr → action.
Hypothesis invoke_keeps : ∀ c p, keeps_identity (invoke c p).

Lemma keeps_call p (x : FSM → call) (f : FSM → code) :
  keeps_identity (with_object p (λ o, emit (x o) >> invoke (f o) (this_ o))).
Proof.
  apply keeps_with_object. intros o.
  apply keeps_and_then; [apply keeps_emit|apply invoke_keeps].
Qed.

Lemma FSM_react_keeps p e : keeps_identity (FSM_react C invoke p e).
Proof. apply keeps_call. Qed.

Lemma FSM_transit_keeps p T : keeps_identity (FSM_transit C invoke p T).
Proof.
  unfold FSM_transit.
  apply keeps_and_then; [apply keeps_call|].
  apply keeps_and_then; [|apply keeps_call].
  apply keeps_and_then; [|apply keeps_emit].
  by apply keeps_update_object.
Qed.

Lemma FSM_reset_keeps p : keeps_identity (FSM_reset C invoke p).
Proof.
  unfold FSM_reset.
  apply keeps_and_then; [apply keeps_call|].
  apply keeps_and_then.
  - apply keeps_with_object. intros o.
    apply keeps_and_then; [|apply keeps_emit].
    by apply keeps_update_object.
  - apply keeps_and_then; [|apply keeps_call].
    apply keeps_and_then; [apply keeps_emit|apply invoke_keeps].
Qed.

End keeps_methods.

Lemma run_keeps n : ∀ c p, keeps_identity (run C n c p).
Proof.
  induction n as [|n IHn]; intros c p;
    induction c as [|k IH|d k IH|T k IH|T k IH|e k IH|k IH].
  all: rewrite ?run_Return, ?run_GetMembers, ?run_SetMembers, ?run_IsInState,
         ?run_DoTransit, ?run_DoReact, ?run_DoReset.
  all: try apply keeps_skip; try apply keeps_fail.
  all: try (apply keeps_with_object; intros o; by apply IH).
  all: try (apply keeps_and_then; [by apply keeps_update_object|apply IH]).
  - apply keeps_and_then; [by apply FSM_transit_keeps|apply IH].
  - apply keeps_and_then; [by apply FSM_react_keeps|apply IH].
  - apply keeps_and_then; [by apply FSM_reset_keeps|apply IH].
Qed.

Lemma apply_op_keeps n p (x : op StateT Event) : keeps_identity (apply_op C n p x).
Proof.
  destruct x; simpl.
  - apply FSM_react_keeps, run_keeps.
  - apply FSM_transit_keeps, run_keeps.
  - apply FSM_reset_keeps, run_keeps.
Qed.

Lemma drive_keeps n (l : list (addr * op StateT Event)) :
  keeps_identity (drive C n l).
Proof.
  induction l as [|[p x] l IH]; simpl.
  - apply keeps_skip.
  - apply keeps_and_then; [apply apply_op_keeps|apply IH].
Qed.

(** ** The claims about the engine *)

(** C1: [transit<T>] calls [exit] on the current state, then points
    [current_state_] at the shared instance of [T], then calls [entry] on the
    new current state, in this order and with no other call of its own:
    whatever the bodies do, a returning [transit] made the [exit] call, then
    the calls of the [exit] body, then the assignment, then the [entry] call
    on the instance of [T], then the calls of the [entry] body, which ran on
    the object as [exit] and the reassignment left it.  With leaf bodies
    these are the only three calls, and [transit] returns.  [T] may be the
    type of the current state: the same calls are made, on that one
    instance. *)
Theorem transit_exit_assign_entry n self T h o :
  h !! self = Some o →
  self_aware self o →
  (∀ h' t, transit C n self T h = Some (h', t) →
     ∃ o1 t1 o2 t2,
       run C n (virtual_exit C (current_state_ o)) self h = Some (<[self := o1]> h, t1)
       ∧ run C n (virtual_entry C (_state_instance T)) self
           (<[self := with_current o1 (_state_instance T)]> h)
         = Some (<[self := o2]> h, t2)
       ∧ h' = <[self := o2]> h
       ∧ t = CallExit (current_state_ o) self :: t1
             ++ Assign self (_state_instance T)
                :: CallEntry (_state_instance T) self :: t2)
  ∧ (leaf (virtual_exit C (current_state_ o)) →
     leaf (virtual_entry C (_state_instance T)) →
     transit C n self T h
     = Some (<[self := after_leaf (virtual_entry C (_state_instance T))
                         (with_current (after_leaf (virtual_exit C (current_state_ o)) o)
                                       (_state_instance T))]> h,
             [CallExit (current_state_ o) self;
              Assign self (_state_instance T);
              CallEntry (_state_instance T) self]))
  ∧ (current_state_ o = _state_instance T →
     leaf (virtual_exit C (_state_instance T)) →
     leaf (virtual_entry C (_state_instance T)) →
     transit C n self T h
     = Some (<[self := after_leaf (virtual_entry C (_state_instance T))
                         (after_leaf (virtual_exit C (_state_instance T)) o)]> h,
             [CallExit (_state_instance T) self;
              Assign self (_state_instance T);
              CallEntry (_state_instance T) self])).
Proof.
  intros Ho Hself. split; [|split].
  - intros h' t. by apply transit_returns.
  - intros Hexit Hentry. by apply transit_leaf.
  - intros Hcur Hexit Hentry.
    rewrite (transit_leaf n self T h o) by (by rewrite ?Hcur).
    rewrite Hcur. do 3 f_equal.
    destruct o as [t i c d]. simpl in Hcur. by subst c.
Qed.



Lemma drive_on_self_local n self (l : list (op StateT Event)) :
  local_at self (drive C n (map (pair self) l)).
Proof.
  induction l as [|x l IH]; simpl.
  - apply local_skip.
  - apply local_and_then; [apply apply_op_local|apply IH].
Qed.

Lemma drive_isolated n a b :
  a ≠ b →
  ∀ (l : list (addr * op StateT Event)) h ha hb oa ob,
    Forall (λ x, x.1 = a ∨ x.1 = b) l →
    h !! a = Some oa → ha !! a = Some oa → self_aware a oa →
    h !! b = Some ob → hb !! b = Some ob → self_aware b ob →
    match drive C n l h with
    | Some (h', _) =>
        ∃ ha' ta hb' tb,
          drive C n (calls_on a l) ha = Some (ha', ta)
          ∧ drive C n (calls_on b l) hb = Some (hb', tb)
          ∧ h' !! a = ha' !! a ∧ h' !! b = hb' !! b
    | None =>
        drive C n (calls_on a l) ha = None ∨ drive C n (calls_on b l) hb = None
    end.
Proof.
  intros Hab. induction l as [|[x f] l IH]; intros h ha hb oa ob Hl Ha Ha' Hsa Hb Hb' Hsb.
  { simpl. exists ha, [], hb, []. unfold skip. repeat split; congruence. }
  apply Forall_cons in Hl as [Hx Hl]. simpl in Hx. unfold calls_on in *.
  destruct Hx as [-> | ->].
  - rewrite filter_cons_True by done. rewrite filter_cons_False by (simpl; congruence).
    simpl. unfold and_then.
    destruct (apply_op_local n a f oa Hsa) as [Hfail|(oa' & t1 & Hthis & Hinit & Hrun)].
    { rewrite (Hfail h Ha), (Hfail ha Ha'). by left. }
    rewrite (Hrun h Ha), (Hrun ha Ha').
    assert (self_aware a oa') as Hsa' by (unfold self_aware in *; congruence).
    specialize (IH (<[a:=oa']> h) (<[a:=oa']> ha) hb oa' ob Hl).
    rewrite !lookup_insert_eq in IH. rewrite lookup_insert_ne in IH by done.
    specialize (IH eq_refl eq_refl Hsa' Hb Hb' Hsb).
    destruct (drive C n l (<[a:=oa']> h)) as [[h' t']|].
    + destruct IH as (ha' & ta & hb' & tb & -> & -> & Heqa & Heqb).
      by exists ha', (t1 ++ ta), hb', tb.
    + destruct IH as [-> | ->]; [by left|by right].
  - rewrite filter_cons_False by (simpl; congruence). rewrite filter_cons_True by done.
    simpl. unfold and_then.
    destruct (apply_op_local n b f ob Hsb) as [Hfail|(ob' & t1 & Hthis & Hinit & Hrun)].
    { rewrite (Hfail h Hb), (Hfail hb Hb'). by right. }
    rewrite (Hrun h Hb), (Hrun hb Hb').
    assert (self_aware b ob') as Hsb' by (unfold self_aware in *; congruence).
    specialize (IH (<[b:=ob']> h) ha (<[b:=ob']> hb) oa ob' Hl).
    rewrite !lookup_insert_eq in IH. rewrite lookup_insert_ne in IH by done.
    specialize (IH Ha Ha' Hsa eq_refl eq_refl Hsb').
    destruct (drive C n l (<[b:=ob']> h)) as [[h' t']|].
    + destruct IH as (ha' & ta & hb' & tb & -> & -> & Heqa & Heqb).
      by exists ha', ta, hb', (t1 ++ tb).
    + destruct IH as [-> | ->]; [by left|by right].
Qed.

(** C4: [start] builds an object whose [init_state_] and [current_state_]
    both point at the shared instance of the initial state type, with the
    members the child constructor makes of the arguments; it calls no
    [entry] and no [exit], and [is_in_state] of the initial state type is
    true of the new object. *)
Theorem start_constructs (T_State_Init : StateT) (args : Args) self h :
  ∃ o,
    start C T_State_Init args self h = Some (<[self := o]> h, [])
    ∧ init_state_ o = _state_instance T_State_Init
    ∧ current_state_ o = _state_instance T_State_Init
    ∧ this_ o = self
    ∧ members o = child_ctor C args
    ∧ is_in_state self T_State_Init (<[self := o]> h) = Some true.
Proof.
  eexists. split; [reflexivity|]. repeat split.
  unfold is_in_state. rewrite lookup_insert_eq. simpl.
  unfold FSM_is_in_state. simpl. by rewrite bool_decide_eq_true_2.
Qed.

(** C5: [is_in_state<T>] is true exactly when [current_state_] is the
    address of the shared instance of [T]; it returns a boolean and no
    store; for two distinct state types it is not true of both. *)
Theorem is_in_state_identity self h o (T1 T2 : StateT) :
  h !! self = Some o →
  T1 ≠ T2 →
  (is_in_state self T1 h = Some true ↔ current_state_ o = _state_instance T1)
  ∧ (is_in_state self T1 h = Some false ↔ current_state_ o ≠ _state_instance T1)
  ∧ ¬ (is_in_state self T1 h = Some true ∧ is_in_state self T2 h = Some true).
Proof.
  intros Ho Hne. unfold is_in_state, FSM_is_in_state. rewrite Ho. simpl.
  split; [|split].
  - split.
    + intros [= Hb]. by apply bool_decide_eq_true in Hb.
    + intros Hc. by rewrite bool_decide_eq_true_2.
  - split.
    + intros [= Hb]. by apply bool_decide_eq_false in Hb.
    + intros Hc. by rewrite bool_decide_eq_false_2.
  - intros [[= H1] [= H2]].
    apply bool_decide_eq_true in H1, H2.
    rewrite H1 in H2. by injection H2.
Qed.

(** C3 (amended): after [start] and any number of calls on the object,
    [reset] with leaf bodies returns and ends with [is_in_state] of the
    initial state type true; the members are the ones [entry] of the initial
    state leaves of the ones the hook left.  They are the members of
    construction when the hook has restored those and that [entry] leaves
    them as they are. *)
Theorem reset_end_state n (T0 : StateT) (args : Args) self
    (l : list (op StateT Event)) h0 h t :
  (∀ s, leaf (virtual_exit C s)) →
  leaf (virtual_resetter C) →
  leaf (virtual_entry C (_state_instance T0)) →
  (start C T0 args self >> drive C n (map (pair self) l)) h0 = Some (h, t) →
  ∃ o,
    h !! self = Some o
    ∧ let o2 := after_leaf (virtual_resetter C)
                  (with_current (after_leaf (virtual_exit C (current_state_ o)) o)
                                (_state_instance T0)) in
      let o3 := after_leaf (virtual_entry C (_state_instance T0)) o2 in
      reset C n self h
      = Some (<[self := o3]> h,
              [CallExit (current_state_ o) self;
               Assign self (_state_instance T0);
               CallResetter self;
               CallEntry (_state_instance T0) self])
      ∧ is_in_state self T0 (<[self := o3]> h) = Some true
      ∧ (members o2 = child_ctor C args →
         leaf_members (virtual_entry C (_state_instance T0)) o2 = members o2 →
         members o3 = child_ctor C args).
Proof.
  intros Hexit Hres Hentry. unfold and_then, start, FSM_start.
  set (o0 := T_FSM_Child C self (_state_instance T0) args).
  destruct (drive_on_self_local n self l o0 eq_refl)
    as [Hfail|(o & t1 & Hthis & Hinit & Hrun)].
  { by rewrite (Hfail (<[self:=o0]> h0)) by apply lookup_insert_eq. }
  rewrite (Hrun (<[self:=o0]> h0)) by apply lookup_insert_eq.
  intros [= <- <-]. rewrite insert_insert_eq.
  assert (init_state_ o = _state_instance T0) as Hi by done.
  exists o. split; [apply lookup_insert_eq|]. simpl.
  rewrite (reset_leaf n self _ o); rewrite ?Hi; try done;
    [|apply lookup_insert_eq].
  split; [done|]. split.
  - unfold is_in_state. rewrite lookup_insert_eq. simpl.
    unfold FSM_is_in_state. simpl. by rewrite bool_decide_eq_true_2.
  - simpl. congruence.
Qed.


(** C7: two objects built by [start] at different addresses, driven by any
    interleaving of [react], [transit] and [reset] calls, whatever the
    bodies of the consumer do: the interleaving returns exactly when the
    calls on each object, made on that object alone, return, and it leaves
    each object as those calls alone leave it. *)
Theorem instances_isolated n (l : list (addr * op StateT Event)) a b
    (Ta Tb : StateT) (args_a args_b : Args) h0 :
  a ≠ b →
  Forall (λ x, x.1 = a ∨ x.1 = b) l →
  ∃ hab ha hb,
    (start C Ta args_a a >> start C Tb args_b b) h0 = Some (hab, [])
    ∧ start C Ta args_a a h0 = Some (ha, [])
    ∧ start C Tb args_b b h0 = Some (hb, [])
    ∧ match drive C n l hab with
      | Some (h', _) =>
          ∃ ha' ta hb' tb,
            drive C n (calls_on a l) ha = Some (ha', ta)
            ∧ drive C n (calls_on b l) hb = Some (hb', tb)
            ∧ h' !! a = ha' !! a ∧ h' !! b = hb' !! b
      | None =>
          drive C n (calls_on a l) ha = None ∨ drive C n (calls_on b l) hb = None
      end.
Proof.
  intros Hab Hl. do 3 eexists. split; [reflexivity|]. split; [reflexivity|].
  split; [reflexivity|].
  apply (drive_isolated n a b Hab l _ _ _
           (T_FSM_Child C a (_state_instance Ta) args_a)
           (T_FSM_Child C b (_state_instance Tb) args_b) Hl).
  all: first [ done
             | apply lookup_insert_eq
             | rewrite lookup_insert_ne by done; apply lookup_insert_eq ].
Qed.

(** C9 (amended): when the [entry] of [T] makes no call back into the
    engine, a [transit<T>] that returns leaves [is_in_state<T>] true,
    whatever the state before and whatever [exit] did; and [transit<T>] does
    return when [exit] is a leaf too. *)
Theorem transit_then_in_state n self T h o :
  h !! self = Some o →
  self_aware self o →
  leaf (virtual_entry C (_state_instance T)) →
  (∀ h' t, transit C n self T h = Some (h', t) →
           is_in_state self T h' = Some true)
  ∧ (leaf (virtual_exit C (current_state_ o)) →
     ∃ h' t, transit C n self T h = Some (h', t)
             ∧ is_in_state self T h' = Some true).
Proof.
  intros Ho Hself Hentry.
  assert (∀ o1, is_in_state self T
            (<[self := after_leaf (virtual_entry C (_state_instance T))
                         (with_current o1 (_state_instance T))]> h)
          = Some true) as Hin.
  { intros o1. unfold is_in_state. rewrite lookup_insert_eq. simpl.
    unfold FSM_is_in_state. simpl. by rewrite bool_decide_eq_true_2. }
  split.
  - intros h' t. unfold transit, FSM_transit, and_then, update_object, with_object, emit.
    rewrite Ho. pose proof Hself as Hthis. unfold self_aware in Hthis. rewrite Hthis.
    destruct (run_local n (virtual_exit C (current_state_ o)) self o Hself)
      as [Hfail|(o1 & t1 & Hthis1 & Hinit1 & Hrun)].
    { by rewrite (Hfail h Ho). }
    rewrite (Hrun h Ho). rewrite !lookup_insert_eq. simpl.
    rewrite Hthis1, Hthis.
    erewrite run_leaf; [|done|apply lookup_insert_eq].
    rewrite !insert_insert_eq. intros [= <- _]. apply Hin.
  - intros Hexit. do 2 eexists. split; [by apply transit_leaf|]. apply Hin.
Qed.

(** C10: the free function [start] returns what the member [FSM::start]
    returns on the same initial state type and arguments. *)
Theorem start_is_member_start (T_State_Init : StateT) (args : Args) :
  start C T_State_Init args = FSM_start C T_State_Init args
  ∧ ∀ self h, start C T_State_Init args self h
              = Some (<[self := T_FSM_Child C self (_state_instance T_State_Init) args]> h, []).
Proof. split; reflexivity. Qed.

(** ** Further properties of the engine *)

(** X1: no sequence of [react], [transit] and [reset] calls, on whatever
    objects and with whatever bodies, adds or removes an FSM object or
    changes the [this_] or the [init_state_] of one. *)
Theorem calls_keep_identity n (l : list (addr * op StateT Event)) h h' t :
  drive C n l h = Some (h', t) →
  (∀ a o, h !! a = Some o →
     ∃ o', h' !! a = Some o' ∧ this_ o' = this_ o ∧ init_state_ o' = init_state_ o)
  ∧ (∀ a, h !! a = None → h' !! a = None).
Proof.
  intros Hrun. pose proof (drive_keeps n l h h' t Hrun) as Hsame. split.
  - intros a o Ho. specialize (Hsame a). rewrite Ho in Hsame.
    destruct (h' !! a) as [o'|]; [|done]. by exists o'.
  - intros a Ha. specialize (Hsame a). rewrite Ha in Hsame.
    by destruct (h' !! a).
Qed.

(** X2: calls on an object built by [start], whatever the bodies do, leave
    every other object of the store as it is: the store after the calls is
    the store before with that one object replaced. *)
Theorem calls_frame n a (l : list (op StateT Event)) h o h' t :
  h !! a = Some o →
  self_aware a o →
  drive C n (map (pair a) l) h = Some (h', t) →
  ∃ o', h' = <[a := o']> h ∧ self_aware a o' ∧ init_state_ o' = init_state_ o.
Proof.
  intros Ho Hself Hrun.
  destruct (drive_on_self_local n a l o Hself) as [Hfail|(o' & t' & Hthis & Hinit & Hr)].
  { by rewrite (Hfail h Ho) in Hrun. }
  rewrite (Hr h Ho) in Hrun. injection Hrun as <- <-.
  exists o'. unfold self_aware in *. repeat split; congruence.
Qed.

(** X4: a body that calls [transit<A>] and then [transit<B>] (leaf [entry]
    and [exit]) enters and leaves [A] on the way: the calls are exit of the
    current state, entry of [A], exit of [A], entry of [B], each after its
    assignment, and the FSM ends in [B]. *)
Theorem two_transits_in_one_body n self (A B : StateT) h o :
  h !! self = Some o →
  self_aware self o →
  leaf (virtual_exit C (current_state_ o)) →
  leaf (virtual_entry C (_state_instance A)) →
  leaf (virtual_exit C (_state_instance A)) →
  leaf (virtual_entry C (_state_instance B)) →
  let o1 := after_leaf (virtual_entry C (_state_instance A))
              (with_current (after_leaf (virtual_exit C (current_state_ o)) o)
                            (_state_instance A)) in
  let o2 := after_leaf (virtual_entry C (_state_instance B))
              (with_current (after_leaf (virtual_exit C (_state_instance A)) o1)
                            (_state_instance B)) in
  run C (S n) (DoTransit A (DoTransit B Return)) self h
  = Some (<[self := o2]> h,
          [CallExit (current_state_ o) self;
           Assign self (_state_instance A);
           CallEntry (_state_instance A) self;
           CallExit (_state_instance A) self;
           Assign self (_state_instance B);
           CallEntry (_state_instance B) self])
  ∧ is_in_state self B (<[self := o2]> h) = Some true.
Proof.
  intros Ho Hself HexitO HentryA HexitA HentryB o1 o2.
  rewrite !run_DoTransit, run_Return. unfold and_then, skip.
  rewrite (transit_leaf n self A h o) by done. fold o1.
  rewrite (transit_leaf n self B (<[self:=o1]> h) o1);
    [|apply lookup_insert_eq|done|done|done].
  change (current_state_ o1) with (_state_instance A). fold o2.
  rewrite insert_insert_eq. split; [done|].
  unfold is_in_state. rewrite lookup_insert_eq. simpl.
  unfold FSM_is_in_state. simpl. by rewrite bool_decide_eq_true_2.
Qed.

(** X5: when the [exit] of the current state starts by calling [transit],
    neither [transit] nor [reset] returns, on any fuel: the nested [transit]
    calls the same [exit] again before [current_state_] has changed. *)
Theorem transit_in_exit_never_returns n self T (U : StateT) k h o :
  h !! self = Some o →
  self_aware self o →
  virtual_exit C (current_state_ o) = DoTransit U k →
  transit C n self T h = None ∧ reset C n self h = None.
Proof.
  intros Ho Hself Hexit. pose proof Hself as Hthis. unfold self_aware in Hthis.
  assert (∀ (j : nat) T', transit C j self T' h = None) as Hloop.
  { induction j as [|j IH]; intros T';
      unfold transit, FSM_transit, and_then, with_object, emit;
      rewrite Ho, Hthis, Hexit; [done|].
    rewrite run_DoTransit. unfold and_then. by rewrite IH. }
  split; [apply Hloop|].
  unfold reset, FSM_reset, and_then, with_object, emit.
  rewrite Ho, Hthis, Hexit. destruct n as [|n]; [done|].
  rewrite run_DoTransit. unfold and_then. by rewrite Hloop.
Qed.

(** X6: when the [entry] of [T] is a call of [transit<U>] followed by a
    leaf body, and the [exit] of the current state, the [exit] of [T] and the
    [entry] of [U] are leaf bodies, a [transit<T>] returns (fuel at least 1)
    with the FSM in [U]: [T] is entered and left at once, and
    [is_in_state<T>] is false. *)
Theorem transit_in_entry_redirects n self (T U : StateT) k h o :
  h !! self = Some o →
  self_aware self o →
  leaf (virtual_exit C (current_state_ o)) →
  virtual_entry C (_state_instance T) = DoTransit U k →
  leaf k →
  leaf (virtual_exit C (_state_instance T)) →
  leaf (virtual_entry C (_state_instance U)) →
  ∃ o',
    transit C (S n) self T h
    = Some (<[self := o']> h,
            [CallExit (current_state_ o) self;
             Assign self (_state_instance T);
             CallEntry (_state_instance T) self;
             CallExit (_state_instance T) self;
             Assign self (_state_instance U);
             CallEntry (_state_instance U) self])
    ∧ is_in_state self U (<[self := o']> h) = Some true
    ∧ is_in_state self T (<[self := o']> h) = Some false.
Proof.
  intros Ho Hself HexitO HentryT Hk HexitT HentryU.
  pose proof Hself as Hthis. unfold self_aware in Hthis.
  assert (T ≠ U) as Hne.
  { intros ->. rewrite HentryT in HentryU. inversion HentryU. }
  set (o1 := with_current (after_leaf (virtual_exit C (current_state_ o)) o)
               (_state_instance T)).
  set (o2 := after_leaf (virtual_entry C (_state_instance U))
               (with_current (after_leaf (virtual_exit C (_state_instance T)) o1)
                             (_state_instance U))).
  exists (after_leaf k o2). split; [|split].
  - unfold transit, FSM_transit, and_then, update_object, with_object, emit.
    rewrite Ho, Hthis. rewrite (run_leaf (S n) _ self HexitO h o Ho).
    rewrite !lookup_insert_eq.
    cbn [this_ current_state_ init_state_ with_current after_leaf with_members app].
    rewrite Hthis, !insert_insert_eq.
    rewrite HentryT, run_DoTransit. unfold and_then. fold o1.
    rewrite (transit_leaf n self U (<[self:=o1]> h) o1);
      [|apply lookup_insert_eq|done|done|done].
    change (current_state_ o1) with (_state_instance T). fold o2.
    rewrite insert_insert_eq.
    rewrite (run_leaf (S n) k self Hk _ o2) by apply lookup_insert_eq.
    by rewrite insert_insert_eq.
  - unfold is_in_state. rewrite lookup_insert_eq. simpl.
    unfold FSM_is_in_state. simpl. by rewrite bool_decide_eq_true_2.
  - unfold is_in_state. rewrite lookup_insert_eq. simpl.
    unfold FSM_is_in_state. simpl. rewrite bool_decide_eq_false_2; [done|].
    unfold _state_instance. congruence.
Qed.

(** X7: a reaction that is a leaf body changes members only: [react]
    returns on any fuel, the one reaction call is the only call, no [exit]
    or [entry] runs, and [is_in_state] answers as before. *)
Theorem leaf_reaction_keeps_state n self e h o :
  h !! self = Some o →
  self_aware self o →
  leaf (virtual_react C (current_state_ o) e) →
  react C n self e h
  = Some (<[self := after_leaf (virtual_react C (current_state_ o) e) o]> h,
          [CallReact (current_state_ o) self e])
  ∧ ∀ T, is_in_state self T
           (<[self := after_leaf (virtual_react C (current_state_ o) e) o]> h)
         = is_in_state self T h.
Proof.
  intros Ho Hself Hleaf. pose proof Hself as Hthis. unfold self_aware in Hthis.
  split.
  - unfold react, FSM_react, with_object, and_then, emit. rewrite Ho, Hthis.
    by rewrite (run_leaf n _ self Hleaf h o Ho).
  - intros T. unfold is_in_state. by rewrite lookup_insert_eq, Ho.
Qed.

(** X8: a [reset] that returns leaves the FSM in its initial state whatever
    the [exit] of the state it was in did, when the hook and the [entry] of
    the initial state are leaf bodies. *)
Theorem reset_then_in_initial_state n self (T0 : StateT) h o h' t :
  h !! self = Some o →
  self_aware self o →
  init_state_ o = _state_instance T0 →
  leaf (virtual_resetter C) →
  leaf (virtual_entry C (_state_instance T0)) →
  reset C n self h = Some (h', t) →
  is_in_state self T0 h' = Some true
  ∧ ∃ o', h' = <[self := o']> h ∧ init_state_ o' = _state_instance T0.
Proof.
  intros Ho Hself Hinit Hres Hentry Hrun.
  destruct (reset_returns n self h o h' t Ho Hself Hrun)
    as (o1 & t1 & o2 & t2 & o3 & t3 & Hexit & Hhook & Hent & -> & _).
  rewrite Hinit in Hhook.
  rewrite (run_leaf n _ self Hres _ (with_current o1 (_state_instance T0)))
    in Hhook by apply lookup_insert_eq.
  rewrite insert_insert_eq in Hhook. injection Hhook as Heq _.
  assert (o2 = after_leaf (virtual_resetter C)
                 (with_current o1 (_state_instance T0))) as ->.
  { apply (f_equal (λ x : gmap addr FSM, x !! self)) in Heq.
    rewrite !lookup_insert_eq in Heq. congruence. }
  simpl in Hent.
  rewrite (run_leaf n _ self Hentry _ _ (lookup_insert_eq _ _ _)) in Hent.
  rewrite insert_insert_eq in Hent. injection Hent as Heq' _.
  assert (o3 = after_leaf (virtual_entry C (_state_instance T0))
                 (after_leaf (virtual_resetter C)
                    (with_current o1 (_state_instance T0)))) as ->.
  { apply (f_equal (λ x : gmap addr FSM, x !! self)) in Heq'.
    rewrite !lookup_insert_eq in Heq'. congruence. }
  split.
  - unfold is_in_state. rewrite lookup_insert_eq. simpl.
    unfold FSM_is_in_state. simpl. by rewrite bool_decide_eq_true_2.
  - eexists. split; [reflexivity|]. simpl.
    destruct (run_returns _ _ _ _ _ _ _ Ho Hself Hexit) as (o1' & Heq1 & _ & Hi).
    apply (f_equal (λ x : gmap addr FSM, x !! self)) in Heq1.
    rewrite !lookup_insert_eq in Heq1. injection Heq1 as ->. congruence.
Qed.

(** X9: a copy of an FSM built by [start] keeps the [this_] of the
    original.  A reaction of the copy with a leaf body writes the members of
    the original and leaves the copy as it was. *)
Theorem copy_reacts_on_the_original n a b e h o :
  h !! a = Some o →
  self_aware a o →
  a ≠ b →
  leaf (virtual_react C (current_state_ o) e) →
  (T_FSM_Child_copy a b : action) h = Some (<[b := o]> h, [])
  ∧ react C n b e (<[b := o]> h)
    = Some (<[a := after_leaf (virtual_react C (current_state_ o) e) o]>
              (<[b := o]> h),
            [CallReact (current_state_ o) a e])
  ∧ (<[a := after_leaf (virtual_react C (current_state_ o) e) o]>
       (<[b := o]> h)) !! b = Some o.
Proof.
  intros Ho Hself Hab Hleaf. pose proof Hself as Hthis. unfold self_aware in Hthis.
  split; [|split].
  - unfold T_FSM_Child_copy, with_object. by rewrite Ho.
  - unfold react, FSM_react, with_object, and_then, emit.
    rewrite lookup_insert_eq, Hthis.
    rewrite (run_leaf n _ a Hleaf (<[b:=o]> h) o); [done|].
    by rewrite lookup_insert_ne.
  - rewrite lookup_insert_ne by done. apply lookup_insert_eq.
Qed.

End engine_facts.

(** * The extended switch *)

Section extended_switch_facts.

Import ExtendedSwitch.

Lemma extended_switch_entry_leaf s : leaf (virtual_entry classes s).
Proof. destruct s as [[]]; repeat constructor. Qed.

Lemma extended_switch_exit_leaf s : leaf (virtual_exit classes s).
Proof. destruct s as [[]]; repeat constructor. Qed.

Lemma extended_switch_resetter_leaf : leaf (virtual_resetter classes).
Proof. repeat constructor. Qed.


Ltac switch_step :=
  first
    [ rewrite lookup_insert_eq
    | rewrite insert_insert_eq
    | rewrite run_Return
    | rewrite run_GetMembers
    | rewrite run_SetMembers
    | rewrite run_DoTransit
    | progress change (FSM_transit classes (run classes ?n)) with (transit classes n)
    | erewrite transit_leaf by
        first [ apply lookup_insert_eq | reflexivity
              | apply extended_switch_exit_leaf
              | apply extended_switch_entry_leaf ]
    | erewrite reset_leaf by
        first [ apply lookup_insert_eq | reflexivity
              | apply extended_switch_exit_leaf
              | apply extended_switch_entry_leaf
              | apply extended_switch_resetter_leaf ]
    | progress unfold react, FSM_react, is_in_state, current_equals, getCurrent, and_then,
        update_object, with_object, emit, skip, setCurrent
    | progress simpl ].

(** C8: the run of [tests/extended_switch.cpp]: started in [OnState] with
    current 10, the FSM is in [OnState] with current 10; after
    [react(OffEvent())] it is in [OffState] with current 0; after [reset()]
    it is in [OnState] with current 10; after [react(OnEvent(20))] it is in
    [OnState] with current 20, and that last [react] made the reaction call
    and no [exit], assignment or [entry]. *)
Theorem extended_switch_scenario n self h0 :
  let fsm (T : StateT) (current : Z) :=
    <[self := mkFSM self (_state_instance OnState) (_state_instance T)
                (mkFields (double_of_Z 10) (double_of_Z current))]> h0 in
  start classes OnState (double_of_Z 10) self h0 = Some (fsm OnState 10%Z, [])
  ∧ is_in_state self OnState (fsm OnState 10%Z) = Some true
  ∧ getCurrent self (fsm OnState 10%Z) = Some (double_of_Z 10)
  ∧ current_equals self (double_of_Z 10) (fsm OnState 10%Z) = Some true
  ∧ react classes (S n) self OffEvent (fsm OnState 10%Z)
    = Some (fsm OffState 0%Z,
            [CallReact (_state_instance OnState) self OffEvent;
             CallExit (_state_instance OnState) self;
             Assign self (_state_instance OffState);
             CallEntry (_state_instance OffState) self])
  ∧ is_in_state self OffState (fsm OffState 0%Z) = Some true
  ∧ getCurrent self (fsm OffState 0%Z) = Some (double_of_Z 0)
  ∧ current_equals self (double_of_Z 0) (fsm OffState 0%Z) = Some true
  ∧ reset classes (S n) self (fsm OffState 0%Z)
    = Some (fsm OnState 10%Z,
            [CallExit (_state_instance OffState) self;
             Assign self (_state_instance OnState);
             CallResetter self;
             CallEntry (_state_instance OnState) self])
  ∧ is_in_state self OnState (fsm OnState 10%Z) = Some true
  ∧ getCurrent self (fsm OnState 10%Z) = Some (double_of_Z 10)
  ∧ current_equals self (double_of_Z 10) (fsm OnState 10%Z) = Some true
  ∧ react classes (S n) self (OnEvent (double_of_Z 20)) (fsm OnState 10%Z)
    = Some (fsm OnState 20%Z,
            [CallReact (_state_instance OnState) self (OnEvent (double_of_Z 20))])
  ∧ is_in_state self OnState (fsm OnState 20%Z) = Some true
  ∧ getCurrent self (fsm OnState 20%Z) = Some (double_of_Z 20)
  ∧ current_equals self (double_of_Z 20) (fsm OnState 20%Z) = Some true.
Proof.
  intros fsm. subst fsm. cbv beta.
  repeat split; repeat switch_step; reflexivity.
Qed.

(** C3, as stated, fails: started in [OffState] with current 10, the FSM
    has current 0 after [reset()], as [OffState::entry] runs after the
    hook. *)
Lemma reset_restores_construction_counterexample :
  ¬ reset_restores_construction classes.
Proof.
  intros H.
  destruct (H 0 OffState (double_of_Z 10) 1%positive [] ∅
              {[1%positive := switch_object 1 OffState OffState 10 10]} []
              {[1%positive := switch_object 1 OffState OffState 10 0]}
              [CallExit (_state_instance OffState) 1%positive;
               Assign 1%positive (_state_instance OffState);
               CallResetter 1%positive;
               CallEntry (_state_instance OffState) 1%positive])
    as (_ & o' & Ho' & Hm).
  - by vm_compute.
  - by vm_compute.
  - rewrite lookup_singleton_eq in Ho'. injection Ho' as <-.
    vm_compute in Hm. discriminate Hm.
Qed.

(** ** The extended switch as an automaton *)

Lemma extended_switch_apply_op n self T0 initial s (x : op StateT Event) h :
  ∃ t, apply_op classes (S n) self x (<[self := switch_in self T0 initial s]> h)
       = Some (<[self := switch_in self T0 initial (switch_op T0 initial s x)]> h, t).
Proof.
  destruct s as [s c]. unfold switch_in.
  destruct s, T0, x as [[current|]|[]|];
    unfold apply_op; cbn [fst snd switch_op switch_react entered];
    repeat switch_step; eexists; reflexivity.
Qed.

Lemma extended_switch_drive n self T0 initial (l : list (op StateT Event)) :
  ∀ s h,
    ∃ t, drive classes (S n) (map (pair self) l) (<[self := switch_in self T0 initial s]> h)
         = Some (<[self := switch_in self T0 initial (foldl (switch_op T0 initial) s l)]> h, t).
Proof.
  induction l as [|x l IH]; intros s h; simpl.
  - by eexists.
  - unfold and_then.
    destruct (extended_switch_apply_op n self T0 initial s x h) as [t1 ->].
    destruct (IH (switch_op T0 initial s x) h) as [t2 ->].
    by eexists.
Qed.

(** X10: the extended switch is the automaton [switch_op]: after [start]
    and any calls (fuel at least 1), the calls have returned, the object
    has the state and the current the automaton computes, and its
    [initial_current_] is the one of construction. *)
Theorem extended_switch_automaton n self T0 initial (l : list (op StateT Event)) h :
  ∃ t,
    (start classes T0 initial self >> drive classes (S n) (map (pair self) l)) h
    = Some (<[self := switch_in self T0 initial
                        (foldl (switch_op T0 initial) (T0, initial) l)]> h, t).
Proof.
  unfold and_then, start, FSM_start.
  change (T_FSM_Child classes self (_state_instance T0) initial)
    with (switch_in self T0 initial (T0, initial)).
  destruct (extended_switch_drive n self T0 initial l (T0, initial) h) as [t ->].
  by eexists.
Qed.

(** X11: in the extended switch started in [OnState], whenever the FSM is
    in [OffState] after any calls, its current is 0. *)
Theorem extended_switch_off_is_zero n self initial (l : list (op StateT Event)) h h' t :
  (start classes OnState initial self >> drive classes (S n) (map (pair self) l)) h
  = Some (h', t) →
  is_in_state self OffState h' = Some true →
  getCurrent self h' = Some (double_of_Z 0).
Proof.
  unfold and_then, start, FSM_start.
  change (T_FSM_Child classes self (_state_instance OnState) initial)
    with (switch_in self OnState initial (OnState, initial)).
  destruct (extended_switch_drive n self OnState initial l (OnState, initial) h)
    as [t' ->].
  intros [= <- _].
  unfold is_in_state, getCurrent. rewrite !lookup_insert_eq. simpl.
  assert (∀ s, (s.1 = OffState → s.2 = double_of_Z 0) →
               (foldl (switch_op OnState initial) s l).1 = OffState →
               (foldl (switch_op OnState initial) s l).2 = double_of_Z 0) as Hinv.
  { induction l as [|x l IH]; intros s Hs; [done|]. simpl. apply IH.
    destruct s as [[] c], x as [[current|]|[]|]; simpl in *; try done.
    all: intros _; by apply Hs. }
  intros [= Hoff]. apply bool_decide_eq_true in Hoff. injection Hoff as Hoff.
  f_equal. by apply Hinv.
Qed.

(** X12: in the extended switch a [reset] after any calls returns and
    leaves the object a [reset] right after [start] leaves: in the initial
    state, with the initial current when that state is [OnState] and with
    current 0 when it is [OffState].  A second [reset] changes nothing. *)
Theorem extended_switch_reset_forgets n self T0 initial (l : list (op StateT Event)) h :
  ∃ t1 t2 t3,
    (start classes T0 initial self >> drive classes (S n) (map (pair self) l)
     >> reset classes (S n) self) h
    = Some (<[self := switch_in self T0 initial (entered T0 initial)]> h, t1)
    ∧ (start classes T0 initial self >> reset classes (S n) self) h
      = Some (<[self := switch_in self T0 initial (entered T0 initial)]> h, t2)
    ∧ reset classes (S n) self
        (<[self := switch_in self T0 initial (entered T0 initial)]> h)
      = Some (<[self := switch_in self T0 initial (entered T0 initial)]> h, t3).
Proof.
  assert (∀ s, ∃ t, reset classes (S n) self (<[self := switch_in self T0 initial s]> h)
                    = Some (<[self := switch_in self T0 initial (entered T0 initial)]> h, t))
    as Hreset.
  { intros s. apply (extended_switch_apply_op n self T0 initial s OpReset h). }
  destruct (extended_switch_drive n self T0 initial l (T0, initial) h) as [t Hdrive].
  destruct (Hreset (foldl (switch_op T0 initial) (T0, initial) l)) as [t1 H1].
  destruct (Hreset (T0, initial)) as [t2 H2].
  destruct (Hreset (entered T0 initial)) as [t3 H3].
  exists (t ++ t1), t2, t3. split; [|split; [|done]].
  - unfold and_then at 1, start, FSM_start.
    change (T_FSM_Child classes self (_state_instance T0) initial)
      with (switch_in self T0 initial (T0, initial)).
    unfold and_then. by rewrite Hdrive, H1.
  - unfold and_then, start, FSM_start.
    change (T_FSM_Child classes self (_state_instance T0) initial)
      with (switch_in self T0 initial (T0, initial)).
    by rewrite H2.
Qed.


(** A copy of an FSM object keeps the [this_] of the original (the implicit
    copy constructor copies the pointer): a reaction of the copy writes the
    members of the original.  Objects built by [start] are self-aware. *)
Example copy_reacts_on_original :
  react classes 0 2 (OnEvent (double_of_Z 20))
    {[1%positive := switch_object 1 OnState OnState 10 10;
      2%positive := switch_object 1 OnState OnState 10 10]}
  = Some ({[1%positive := switch_object 1 OnState OnState 10 20;
            2%positive := switch_object 1 OnState OnState 10 10]},
          [CallReact (_state_instance OnState) 1%positive (OnEvent (double_of_Z 20))]).
Proof. by vm_compute. Qed.

(** ** Instances of the theorems on the classes of the tests *)

Lemma transit_exit_assign_entry_witness :
  transit classes 0 1 OffState {[1%positive := switch_object 1 OnState OffState 10 10]}
  = Some (<[1%positive := switch_object 1 OnState OffState 10 0]>
            {[1%positive := switch_object 1 OnState OffState 10 10]},
          [CallExit (_state_instance OffState) 1%positive;
           Assign 1%positive (_state_instance OffState);
           CallEntry (_state_instance OffState) 1%positive]).
Proof.
  destruct (transit_exit_assign_entry classes 0 1%positive OffState
              {[1%positive := switch_object 1 OnState OffState 10 10]}
              (switch_object 1 OnState OffState 10 10)) as (_ & _ & Hself).
  - apply lookup_singleton_eq.
  - reflexivity.
  - apply Hself.
    + reflexivity.
    + apply extended_switch_exit_leaf.
    + apply extended_switch_entry_leaf.
Defined.


Lemma reset_end_state_witness :
  (start classes OnState (double_of_Z 10) 1 >> drive classes 1 [(1%positive, OpReact OffEvent)]) ∅
  = Some ({[1%positive := switch_object 1 OnState OffState 10 0]},
          [CallReact (_state_instance OnState) 1%positive OffEvent;
           CallExit (_state_instance OnState) 1%positive;
           Assign 1%positive (_state_instance OffState);
           CallEntry (_state_instance OffState) 1%positive])
  ∧ ∃ h', reset classes 1 1 {[1%positive := switch_object 1 OnState OffState 10 0]}
          = Some (h', [CallExit (_state_instance OffState) 1%positive;
                       Assign 1%positive (_state_instance OnState);
                       CallResetter 1%positive;
                       CallEntry (_state_instance OnState) 1%positive])
          ∧ is_in_state 1 OnState h' = Some true
          ∧ getCurrent 1 h' = Some (double_of_Z 10).
Proof.
  assert ((start classes OnState (double_of_Z 10) 1
           >> drive classes 1 (map (pair 1%positive) [OpReact OffEvent])) ∅
          = Some ({[1%positive := switch_object 1 OnState OffState 10 0]},
                  [CallReact (_state_instance OnState) 1%positive OffEvent;
                   CallExit (_state_instance OnState) 1%positive;
                   Assign 1%positive (_state_instance OffState);
                   CallEntry (_state_instance OffState) 1%positive])) as Hrun
    by (vm_compute; reflexivity).
  split; [exact Hrun|].
  destruct (reset_end_state classes 1 OnState (double_of_Z 10) 1%positive
              [OpReact OffEvent] ∅ _ _
              extended_switch_exit_leaf extended_switch_resetter_leaf
              (extended_switch_entry_leaf _) Hrun)
    as (o & Ho & Hreset & Hin & Hmem).
  rewrite lookup_singleton_eq in Ho. injection Ho as <-.
  eexists. split; [exact Hreset|]. split; [exact Hin|].
  unfold getCurrent. rewrite lookup_insert_eq.
  unfold mbind, option_bind. rewrite Hmem; reflexivity.
Defined.

Lemma is_in_state_identity_witness :
  (is_in_state 1 OnState {[1%positive := switch_object 1 OnState OnState 10 10]} = Some true
   ↔ current_state_ (switch_object 1 OnState OnState 10 10) = _state_instance OnState)
  ∧ (is_in_state 1 OnState {[1%positive := switch_object 1 OnState OnState 10 10]} = Some false
     ↔ current_state_ (switch_object 1 OnState OnState 10 10) ≠ _state_instance OnState)
  ∧ ¬ (is_in_state 1 OnState {[1%positive := switch_object 1 OnState OnState 10 10]} = Some true
       ∧ is_in_state 1 OffState {[1%positive := switch_object 1 OnState OnState 10 10]} = Some true).
Proof.
  apply (is_in_state_identity 1%positive
           {[1%positive := switch_object 1 OnState OnState 10 10]}
           (switch_object 1 OnState OnState 10 10) OnState OffState).
  - apply lookup_singleton_eq.
  - discriminate.
Defined.


Lemma transit_then_in_state_witness :
  ∃ h' t,
    transit classes 0 1 OnState {[1%positive := switch_object 1 OnState OffState 10 0]}
    = Some (h', t)
    ∧ is_in_state 1 OnState h' = Some true.
Proof.
  destruct (transit_then_in_state classes 0 1%positive OnState
              {[1%positive := switch_object 1 OnState OffState 10 0]}
              (switch_object 1 OnState OffState 10 0)) as (_ & Hreturns).
  - apply lookup_singleton_eq.
  - reflexivity.
  - apply extended_switch_entry_leaf.
  - apply Hreturns. apply extended_switch_exit_leaf.
Defined.

Lemma calls_keep_identity_witness :
  (∀ a o, ({[1%positive := switch_object 1 OnState OnState 10 10]}
           : gmap addr (FSM StateT Fields)) !! a = Some o →
     ∃ o', ({[1%positive := switch_object 1 OnState OffState 10 0]}
            : gmap addr (FSM StateT Fields)) !! a = Some o'
           ∧ this_ o' = this_ o ∧ init_state_ o' = init_state_ o)
  ∧ (∀ a, ({[1%positive := switch_object 1 OnState OnState 10 10]}
           : gmap addr (FSM StateT Fields)) !! a = None →
          ({[1%positive := switch_object 1 OnState OffState 10 0]}
           : gmap addr (FSM StateT Fields)) !! a = None).
Proof.
  apply (calls_keep_identity classes 1 [(1%positive, OpReact OffEvent)]
           {[1%positive := switch_object 1 OnState OnState 10 10]}
           {[1%positive := switch_object 1 OnState OffState 10 0]}
           [CallReact (_state_instance OnState) 1%positive OffEvent;
            CallExit (_state_instance OnState) 1%positive;
            Assign 1%positive (_state_instance OffState);
            CallEntry (_state_instance OffState) 1%positive]).
  vm_compute. reflexivity.
Defined.

Lemma calls_frame_witness :
  ∃ o', ({[1%positive := switch_object 1 OnState OffState 10 0;
           2%positive := switch_object 2 OffState OffState 5 5]}
         : gmap addr (FSM StateT Fields))
        = <[1%positive := o']>
            {[1%positive := switch_object 1 OnState OnState 10 10;
              2%positive := switch_object 2 OffState OffState 5 5]}
        ∧ self_aware 1 o'
        ∧ init_state_ o' = init_state_ (switch_object 1 OnState OnState 10 10).
Proof.
  apply (calls_frame classes 1 1%positive [OpReact OffEvent]
           {[1%positive := switch_object 1 OnState OnState 10 10;
             2%positive := switch_object 2 OffState OffState 5 5]}
           (switch_object 1 OnState OnState 10 10)
           {[1%positive := switch_object 1 OnState OffState 10 0;
             2%positive := switch_object 2 OffState OffState 5 5]}
           [CallReact (_state_instance OnState) 1%positive OffEvent;
            CallExit (_state_instance OnState) 1%positive;
            Assign 1%positive (_state_instance OffState);
            CallEntry (_state_instance OffState) 1%positive]).
  - vm_compute. reflexivity.
  - reflexivity.
  - vm_compute. reflexivity.
Defined.

Lemma two_transits_in_one_body_witness :
  ∃ o2,
    run classes 1 (DoTransit OffState (DoTransit OnState Return)) 1
      {[1%positive := switch_object 1 OnState OnState 10 10]}
    = Some (<[1%positive := o2]>
              {[1%positive := switch_object 1 OnState OnState 10 10]},
            [CallExit (_state_instance OnState) 1%positive;
             Assign 1%positive (_state_instance OffState);
             CallEntry (_state_instance OffState) 1%positive;
             CallExit (_state_instance OffState) 1%positive;
             Assign 1%positive (_state_instance OnState);
             CallEntry (_state_instance OnState) 1%positive])
    ∧ is_in_state 1 OnState
        (<[1%positive := o2]> {[1%positive := switch_object 1 OnState OnState 10 10]})
      = Some true.
Proof.
  eexists.
  apply (two_transits_in_one_body classes 0 1%positive OffState OnState
           {[1%positive := switch_object 1 OnState OnState 10 10]}
           (switch_object 1 OnState OnState 10 10)).
  - apply lookup_singleton_eq.
  - reflexivity.
  - apply extended_switch_exit_leaf.
  - apply extended_switch_entry_leaf.
  - apply extended_switch_exit_leaf.
  - apply extended_switch_entry_leaf.
Defined.

Lemma leaf_reaction_keeps_state_witness :
  react classes 0 1 (OnEvent (double_of_Z 20))
    {[1%positive := switch_object 1 OnState OnState 10 10]}
  = Some (<[1%positive := switch_object 1 OnState OnState 10 20]>
            {[1%positive := switch_object 1 OnState OnState 10 10]},
          [CallReact (_state_instance OnState) 1%positive (OnEvent (double_of_Z 20))])
  ∧ ∀ T, is_in_state 1 T
           (<[1%positive := switch_object 1 OnState OnState 10 20]>
              {[1%positive := switch_object 1 OnState OnState 10 10]})
         = is_in_state 1 T {[1%positive := switch_object 1 OnState OnState 10 10]}.
Proof.
  apply (leaf_reaction_keeps_state classes 0 1%positive (OnEvent (double_of_Z 20))
           {[1%positive := switch_object 1 OnState OnState 10 10]}
           (switch_object 1 OnState OnState 10 10)).
  - apply lookup_singleton_eq.
  - reflexivity.
  - repeat constructor.
Defined.

Lemma reset_then_in_initial_state_witness :
  is_in_state 1 OnState {[1%positive := switch_object 1 OnState OnState 10 10]}
  = Some true
  ∧ ∃ o', ({[1%positive := switch_object 1 OnState OnState 10 10]}
           : gmap addr (FSM StateT Fields))
          = <[1%positive := o']> {[1%positive := switch_object 1 OnState OffState 10 0]}
          ∧ init_state_ o' = _state_instance OnState.
Proof.
  apply (reset_then_in_initial_state classes 0 1%positive OnState
           {[1%positive := switch_object 1 OnState OffState 10 0]}
           (switch_object 1 OnState OffState 10 0)
           {[1%positive := switch_object 1 OnState OnState 10 10]}
           [CallExit (_state_instance OffState) 1%positive;
            Assign 1%positive (_state_instance OnState);
            CallResetter 1%positive;
            CallEntry (_state_instance OnState) 1%positive]).
  - apply lookup_singleton_eq.
  - reflexivity.
  - reflexivity.
  - apply extended_switch_resetter_leaf.
  - apply extended_switch_entry_leaf.
  - vm_compute. reflexivity.
Defined.

Lemma copy_reacts_on_the_original_witness :
  (T_FSM_Child_copy 1 2 : action StateT Event Fields)
    {[1%positive := switch_object 1 OnState OnState 10 10]}
  = Some (<[2%positive := switch_object 1 OnState OnState 10 10]>
            {[1%positive := switch_object 1 OnState OnState 10 10]}, [])
  ∧ react classes 0 2 (OnEvent (double_of_Z 20))
      (<[2%positive := switch_object 1 OnState OnState 10 10]>
         {[1%positive := switch_object 1 OnState OnState 10 10]})
    = Some (<[1%positive := switch_object 1 OnState OnState 10 20]>
              (<[2%positive := switch_object 1 OnState OnState 10 10]>
                 {[1%positive := switch_object 1 OnState OnState 10 10]}),
            [CallReact (_state_instance OnState) 1%positive (OnEvent (double_of_Z 20))])
  ∧ (<[1%positive := switch_object 1 OnState OnState 10 20]>
       (<[2%positive := switch_object 1 OnState OnState 10 10]>
          ({[1%positive := switch_object 1 OnState OnState 10 10]}
           : gmap addr (FSM StateT Fields)))) !! 2%positive
    = Some (switch_object 1 OnState OnState 10 10).
Proof.
  apply (copy_reacts_on_the_original classes 0 1%positive 2%positive
           (OnEvent (double_of_Z 20))
           {[1%positive := switch_object 1 OnState OnState 10 10]}
           (switch_object 1 OnState OnState 10 10)).
  - apply lookup_singleton_eq.
  - reflexivity.
  - discriminate.
  - repeat constructor.
Defined.

Lemma extended_switch_off_is_zero_witness :
  getCurrent 1 {[1%positive := switch_object 1 OnState OffState 10 0]}
  = Some (double_of_Z 0).
Proof.
  apply (extended_switch_off_is_zero 0 1%positive (double_of_Z 10) [OpReact OffEvent] ∅
           {[1%positive := switch_object 1 OnState OffState 10 0]}
           [CallReact (_state_instance OnState) 1%positive OffEvent;
            CallExit (_state_instance OnState) 1%positive;
            Assign 1%positive (_state_instance OffState);
            CallEntry (_state_instance OffState) 1%positive]).
  - vm_compute. reflexivity.
  - vm_compute. reflexivity.
Defined.

End extended_switch_facts.

(** * States that call [transit] from [entry] and [exit] *)

Section reentrant_facts.

Import Reentrant.

(** C9, as stated, fails: [Relay::entry] calls [transit<Idle>], so a
    [transit<Relay>] from [Idle] returns with the FSM in [Idle]. *)
Lemma transit_ends_in_target_counterexample :
  ¬ transit_ends_in_target classes.
Proof.
  intros H.
  specialize (H 1 1%positive Relay
                {[1%positive := mkFSM 1 (_state_instance Idle) (_state_instance Idle) tt]}
                (mkFSM 1 (_state_instance Idle) (_state_instance Idle) tt)
                {[1%positive := mkFSM 1 (_state_instance Idle) (_state_instance Idle) tt]}
                [CallExit (_state_instance Idle) 1%positive;
                 Assign 1%positive (_state_instance Relay);
                 CallEntry (_state_instance Relay) 1%positive;
                 CallExit (_state_instance Relay) 1%positive;
                 Assign 1%positive (_state_instance Idle);
                 CallEntry (_state_instance Idle) 1%positive]).
  assert (is_in_state 1 Relay
            ({[1%positive := mkFSM 1 (_state_instance Idle) (_state_instance Idle) tt]}
             : gmap addr (FSM StateT unit)) = Some true) as Hin.
  { apply H; [apply lookup_singleton_eq|reflexivity|by vm_compute]. }
  vm_compute in Hin. discriminate Hin.
Qed.

Lemma transit_in_exit_never_returns_witness :
  transit classes 7 1 Idle {[1%positive := mkFSM 1 (_state_instance Idle) (_state_instance Loop) tt]}
  = None
  ∧ reset classes 7 1 {[1%positive := mkFSM 1 (_state_instance Idle) (_state_instance Loop) tt]}
    = None.
Proof.
  apply (transit_in_exit_never_returns classes 7 1%positive Idle Idle Return
           {[1%positive := mkFSM 1 (_state_instance Idle) (_state_instance Loop) tt]}
           (mkFSM 1 (_state_instance Idle) (_state_instance Loop) tt)).
  - apply lookup_singleton_eq.
  - reflexivity.
  - reflexivity.
Defined.

Lemma transit_in_entry_redirects_witness :
  ∃ o',
    transit classes 1 1 Relay
      {[1%positive := mkFSM 1 (_state_instance Idle) (_state_instance Idle) tt]}
    = Some (<[1%positive := o']>
              {[1%positive := mkFSM 1 (_state_instance Idle) (_state_instance Idle) tt]},
            [CallExit (_state_instance Idle) 1%positive;
             Assign 1%positive (_state_instance Relay);
             CallEntry (_state_instance Relay) 1%positive;
             CallExit (_state_instance Relay) 1%positive;
             Assign 1%positive (_state_instance Idle);
             CallEntry (_state_instance Idle) 1%positive])
    ∧ is_in_state 1 Idle
        (<[1%positive := o']>
           {[1%positive := mkFSM 1 (_state_instance Idle) (_state_instance Idle) tt]})
      = Some true
    ∧ is_in_state 1 Relay
        (<[1%positive := o']>
           {[1%positive := mkFSM 1 (_state_instance Idle) (_state_instance Idle) tt]})
      = Some false.
Proof.
  apply (transit_in_entry_redirects classes 0 1%positive Relay Idle Return
           {[1%positive := mkFSM 1 (_state_instance Idle) (_state_instance Idle) tt]}
           (mkFSM 1 (_state_instance Idle) (_state_instance Idle) tt)).
  - apply lookup_singleton_eq.
  - reflexivity.
  - repeat constructor.
  - reflexivity.
  - constructor.
  - repeat constructor.
  - repeat constructor.
Defined.

End reentrant_facts.

(** * The simple switch, two instances *)

Section simple_switch_facts.

Import SimpleSwitch.

Lemma simple_switch_entry_leaf s : leaf (virtual_entry classes s).
Proof. destruct s as [[]]; repeat constructor. Qed.

Lemma simple_switch_exit_leaf s : leaf (virtual_exit classes s).
Proof. destruct s as [[]]; repeat constructor. Qed.

Lemma simple_switch_resetter_leaf : leaf (virtual_resetter classes).
Proof. repeat constructor. Qed.

Ltac simple_step :=
  first
    [ rewrite lookup_insert_eq
    | rewrite insert_insert_eq
    | rewrite run_Return
    | rewrite run_DoTransit
    | progress change (FSM_transit classes (run classes ?n)) with (transit classes n)
    | erewrite transit_leaf by
        first [ apply lookup_insert_eq | reflexivity
              | apply simple_switch_exit_leaf
              | apply simple_switch_entry_leaf ]
    | erewrite reset_leaf by
        first [ apply lookup_insert_eq | reflexivity
              | apply simple_switch_exit_leaf
              | apply simple_switch_entry_leaf
              | apply simple_switch_resetter_leaf ]
    | progress unfold react, FSM_react, is_in_state, and_then,
        update_object, with_object, emit, skip
    | progress simpl ].

Lemma simple_switch_apply_op n self T0 s (x : op StateT Event) h :
  ∃ t, apply_op classes (S n) self x (<[self := switch_in self T0 s]> h)
       = Some (<[self := switch_in self T0 (switch_op T0 s x)]> h, t).
Proof.
  unfold switch_in.
  destruct s, T0, x as [[]|[]|];
    unfold apply_op; cbn [switch_op switch_react];
    repeat simple_step; eexists; reflexivity.
Qed.

Lemma simple_switch_drive n self T0 (l : list (op StateT Event)) :
  ∀ s h,
    ∃ t, drive classes (S n) (map (pair self) l) (<[self := switch_in self T0 s]> h)
         = Some (<[self := switch_in self T0 (foldl (switch_op T0) s l)]> h, t).
Proof.
  induction l as [|x l IH]; intros s h; simpl.
  - by eexists.
  - unfold and_then.
    destruct (simple_switch_apply_op n self T0 s x h) as [t1 ->].
    destruct (IH (switch_op T0 s x) h) as [t2 ->].
    by eexists.
Qed.

(** X13: the simple switch is the two-state automaton [switch_op]: after
    [start] and any calls (fuel at least 1), the calls have returned and the
    object is in the state the automaton computes. *)
Theorem simple_switch_automaton n self T0 (l : list (op StateT Event)) h :
  ∃ t,
    (start classes T0 tt self >> drive classes (S n) (map (pair self) l)) h
    = Some (<[self := switch_in self T0 (foldl (switch_op T0) T0 l)]> h, t).
Proof.
  unfold and_then, start, FSM_start.
  change (T_FSM_Child classes self (_state_instance T0) tt)
    with (switch_in self T0 T0).
  destruct (simple_switch_drive n self T0 l T0 h) as [t ->].
  by eexists.
Qed.

Lemma two_switches_drive n a b Ta Tb :
  a ≠ b →
  ∀ (l : list (addr * op StateT Event)) sa sb h,
    Forall (λ x, x.1 = a ∨ x.1 = b) l →
    ∃ t, drive classes (S n) l
           (<[a := switch_in a Ta sa]> (<[b := switch_in b Tb sb]> h))
         = Some (<[a := switch_in a Ta (foldl (switch_op Ta) sa (calls_on a l).*2)]>
                   (<[b := switch_in b Tb (foldl (switch_op Tb) sb (calls_on b l).*2)]> h),
                 t).
Proof.
  intros Hab. induction l as [|[p x] l IH]; intros sa sb h Hl.
  { simpl. by eexists. }
  apply Forall_cons in Hl as [Hp Hl]. simpl in Hp. unfold calls_on in *.
  simpl. unfold and_then. destruct Hp as [-> | ->].
  - destruct (simple_switch_apply_op n a Ta sa x (<[b := switch_in b Tb sb]> h))
      as [t1 ->].
    destruct (IH (switch_op Ta sa x) sb h Hl) as [t2 ->].
    rewrite filter_cons_True by done.
    rewrite filter_cons_False by (simpl; congruence).
    by eexists.
  - rewrite (insert_insert_ne h a b) by done.
    destruct (simple_switch_apply_op n b Tb sb x (<[a := switch_in a Ta sa]> h))
      as [t1 ->].
    rewrite (insert_insert_ne h b a) by done.
    destruct (IH sa (switch_op Tb sb x) h Hl) as [t2 ->].
    rewrite filter_cons_False by (simpl; congruence).
    rewrite filter_cons_True by done.
    by eexists.
Qed.

(** X16: two simple switches built by [start] at different addresses and
    driven by any interleaving of calls (fuel at least 1): the calls return,
    and each object is in the state the automaton computes from the calls
    made on it, whatever was done to the other. *)
Theorem two_simple_switches n a b Ta Tb (l : list (addr * op StateT Event)) h :
  a ≠ b →
  Forall (λ x, x.1 = a ∨ x.1 = b) l →
  ∃ t,
    (start classes Ta tt a >> start classes Tb tt b >> drive classes (S n) l) h
    = Some (<[a := switch_in a Ta (foldl (switch_op Ta) Ta (calls_on a l).*2)]>
              (<[b := switch_in b Tb (foldl (switch_op Tb) Tb (calls_on b l).*2)]> h),
            t).
Proof.
  intros Hab Hl.
  destruct (two_switches_drive n a b Ta Tb Hab l Ta Tb h Hl) as [t Hrun].
  exists t. unfold and_then at 1 2, start, FSM_start.
  change (T_FSM_Child classes a (_state_instance Ta) tt) with (switch_in a Ta Ta).
  change (T_FSM_Child classes b (_state_instance Tb) tt) with (switch_in b Tb Tb).
  rewrite (insert_insert_ne h b a) by done. by rewrite Hrun.
Qed.

Lemma two_simple_switches_witness :
  ∃ t,
    (start classes OffState tt 1 >> start classes OnState tt 2
     >> drive classes 1 [(1%positive, OpReact OnEvent); (2%positive, OpReact OffEvent);
                         (1%positive, OpReset); (2%positive, OpReset);
                         (2%positive, OpReact OffEvent); (1%positive, OpReact OnEvent)]) ∅
    = Some (<[1%positive := switch_in 1 OffState OnState]>
              (<[2%positive := switch_in 2 OnState OffState]> ∅), t).
Proof.
  apply (two_simple_switches 0 1%positive 2%positive OffState OnState
           [(1%positive, OpReact OnEvent); (2%positive, OpReact OffEvent);
            (1%positive, OpReset); (2%positive, OpReset);
            (2%positive, OpReact OffEvent); (1%positive, OpReact OnEvent)] ∅).
  - discriminate.
  - repeat (apply Forall_cons_2; [first [by left|by right]|]). apply Forall_nil_2.
Defined.

(** The calls of [tests/multiple_instances.cpp] on [fsm1] (at 1) and [fsm2]
    (at 2). *)
Lemma instances_isolated_witness :
  let l := [(1%positive, OpReact OnEvent); (2%positive, OpReact OffEvent);
            (1%positive, OpReset); (2%positive, OpReset);
            (2%positive, OpReact OffEvent); (1%positive, OpReact OnEvent)] in
  ∃ hab ha hb,
    (start classes OffState tt 1 >> start classes OnState tt 2) ∅ = Some (hab, [])
    ∧ start classes OffState tt 1 ∅ = Some (ha, [])
    ∧ start classes OnState tt 2 ∅ = Some (hb, [])
    ∧ match drive classes 1 l hab with
      | Some (h', _) =>
          ∃ ha' ta hb' tb,
            drive classes 1 (calls_on 1 l) ha = Some (ha', ta)
            ∧ drive classes 1 (calls_on 2 l) hb = Some (hb', tb)
            ∧ h' !! 1%positive = ha' !! 1%positive
            ∧ h' !! 2%positive = hb' !! 2%positive
      | None =>
          drive classes 1 (calls_on 1 l) ha = None
          ∨ drive classes 1 (calls_on 2 l) hb = None
      end.
Proof.
  intros l.
  apply (instances_isolated classes 1 l 1%positive 2%positive OffState OnState tt tt ∅).
  - discriminate.
  - subst l. repeat (apply Forall_cons_2; [first [by left|by right]|]).
    apply Forall_nil_2.
Defined.

End simple_switch_facts.

(** * The program of [examples/multiple_instances.cpp] *)

Section multiple_instances_example_facts.

Import SimpleSwitch MultipleInstancesExample.

(** The store of [main] with [fsm1] in [s1] and [fsm2] in [s2]. *)
#[local] Abbreviation two s1 s2 :=
  (<[fsm2 := switch_in fsm2 OnState s2]>
     (<[fsm1 := switch_in fsm1 OffState s1]> (∅ : gmap addr (FSM StateT unit)))).

Lemma two_swap s1 s2 :
  two s1 s2
  = <[fsm1 := switch_in fsm1 OffState s1]>
      (<[fsm2 := switch_in fsm2 OnState s2]> (∅ : gmap addr (FSM StateT unit))).
Proof. by apply insert_insert_ne. Qed.

Lemma react_fsm1 n s1 s2 e :
  ∃ t, react classes (S n) fsm1 e (two s1 s2) = Some (two (switch_react s1 e) s2, t).
Proof.
  rewrite !two_swap.
  apply (simple_switch_apply_op n fsm1 OffState s1 (OpReact e)).
Qed.

Lemma react_fsm2 n s1 s2 e :
  ∃ t, react classes (S n) fsm2 e (two s1 s2) = Some (two s1 (switch_react s2 e), t).
Proof. apply (simple_switch_apply_op n fsm2 OnState s2 (OpReact e)). Qed.

Lemma reset_fsm1 n s1 s2 :
  ∃ t, reset classes (S n) fsm1 (two s1 s2) = Some (two OffState s2, t).
Proof.
  rewrite !two_swap.
  apply (simple_switch_apply_op n fsm1 OffState s1 OpReset).
Qed.

Lemma reset_fsm2 n s1 s2 :
  ∃ t, reset classes (S n) fsm2 (two s1 s2) = Some (two s1 OnState, t).
Proof. apply (simple_switch_apply_op n fsm2 OnState s2 OpReset). Qed.

Lemma fsm_loop_switch_fsm1 n c s1 s2 :
  fsm_loop_switch (S n) fsm1 c (two s1 s2)
  = Some (Ascii.eqb c "q", two (key OffState s1 c) s2, key_output c).
Proof.
  unfold fsm_loop_switch, key, key_output.
  destruct (Ascii.eqb c "1") eqn:E1.
  { apply Ascii.eqb_eq in E1 as ->.
    destruct (react_fsm1 n s1 s2 OnEvent) as [t ->]. done. }
  destruct (Ascii.eqb c "2") eqn:E2.
  { apply Ascii.eqb_eq in E2 as ->.
    destruct (react_fsm1 n s1 s2 OffEvent) as [t ->]. done. }
  destruct (Ascii.eqb c "3") eqn:E3.
  { by apply Ascii.eqb_eq in E3 as ->. }
  destruct (Ascii.eqb c "r") eqn:E4.
  { apply Ascii.eqb_eq in E4 as ->.
    destruct (reset_fsm1 n s1 s2) as [t ->]. done. }
  by destruct (Ascii.eqb c "q").
Qed.

Lemma fsm_loop_switch_fsm2 n c s1 s2 :
  fsm_loop_switch (S n) fsm2 c (two s1 s2)
  = Some (Ascii.eqb c "q", two s1 (key OnState s2 c), key_output c).
Proof.
  unfold fsm_loop_switch, key, key_output.
  destruct (Ascii.eqb c "1") eqn:E1.
  { apply Ascii.eqb_eq in E1 as ->.
    destruct (react_fsm2 n s1 s2 OnEvent) as [t ->]. done. }
  destruct (Ascii.eqb c "2") eqn:E2.
  { apply Ascii.eqb_eq in E2 as ->.
    destruct (react_fsm2 n s1 s2 OffEvent) as [t ->]. done. }
  destruct (Ascii.eqb c "3") eqn:E3.
  { by apply Ascii.eqb_eq in E3 as ->. }
  destruct (Ascii.eqb c "r") eqn:E4.
  { apply Ascii.eqb_eq in E4 as ->.
    destruct (reset_fsm2 n s1 s2) as [t ->]. done. }
  by destruct (Ascii.eqb c "q").
Qed.

Lemma fsm_print_state_fsm1 s1 s2 :
  fsm_print_state fsm1 "FSM1" (two s1 s2) = Some (state_line "FSM1" s1).
Proof. by destruct s1. Qed.

Lemma fsm_print_state_fsm2 s1 s2 :
  fsm_print_state fsm2 "FSM2" (two s1 s2) = Some (state_line "FSM2" s2).
Proof. by destruct s2. Qed.

Lemma fsm_loop_call_q n fsm fsm_name h rest :
  fsm_loop_call n fsm fsm_name "q" h rest
  = Returned EXIT_SUCCESS [fsm_loop_prompt fsm_name].
Proof. done. Qed.

Lemma print_states_two s1 s2 rest :
  print_states (two s1 s2) rest
  = after_output [state_line "FSM1" s1; state_line "FSM2" s2] rest.
Proof.
  unfold print_states.
  by rewrite fsm_print_state_fsm1, fsm_print_state_fsm2.
Qed.

Lemma main_loop_console_loop n keys :
  (∀ s1 s2, main_loop (S n) keys (two s1 s2)
            = Returned EXIT_SUCCESS (console_loop keys s1 s2))
  ∧ (∀ c s1 s2, main_loop (S n) (c :: keys) (two s1 s2)
                = Returned EXIT_SUCCESS (console_loop (c :: keys) s1 s2)).
Proof.
  induction keys as [|c2 keys [IH1 IH2]].
  - split; [done|]. intros c s1 s2. cbn [main_loop console_loop].
    unfold fsm_loop_call at 1. rewrite fsm_loop_switch_fsm1.
    destruct (Ascii.eqb c "q") eqn:E; [by apply Ascii.eqb_eq in E as ->|].
    by rewrite fsm_loop_call_q.
  - split; [apply IH2|]. intros c1 s1 s2. cbn [main_loop console_loop].
    unfold fsm_loop_call at 1. rewrite fsm_loop_switch_fsm1.
    destruct (Ascii.eqb c1 "q") eqn:E1; [by apply Ascii.eqb_eq in E1 as ->|].
    unfold fsm_loop_call at 1. rewrite fsm_loop_switch_fsm2.
    destruct (Ascii.eqb c2 "q") eqn:E2; [by apply Ascii.eqb_eq in E2 as ->|].
    rewrite print_states_two, IH1. reflexivity.
Qed.

Lemma main_start :
  (start classes OffState tt fsm1 >> start classes OnState tt fsm2) ∅
  = Some (two OffState OnState, []).
Proof. done. Qed.

(** X14: on every input that holds a [q] ([typed], then the [q], then
    anything) and every fuel of at least 1, [main] returns [EXIT_SUCCESS]
    having written exactly what the console of two two-state switches
    writes: the banner, the two state lines, and for each round the
    prompts, [Wrong usage!] for a character other than [1 2 3 r q], and the
    state lines of the two switches.  No engine call of the program fails to
    return. *)
Theorem main_is_console n typed :
  main (S n) typed = Returned EXIT_SUCCESS (console typed).
Proof.
  unfold main, console. rewrite main_start, print_states_two.
  destruct (main_loop_console_loop n (extracted typed)) as [-> _].
  done.
Qed.

(** The run on the input [1 2 x 3 q]. *)
Example main_on_1_2_x_3_q :
  main 1 "1 2 x 3"
  = Returned EXIT_SUCCESS
      [banner;
       Cout ("FSM1 is off" +:+ endl); Cout ("FSM2 is on" +:+ endl);
       Cout "FSM1: 1 2 3 r q? "; Cout "FSM2: 1 2 3 r q? ";
       Cout ("FSM1 is on" +:+ endl); Cout ("FSM2 is off" +:+ endl);
       Cout "FSM1: 1 2 3 r q? "; Cerr ("Wrong usage!" +:+ endl);
       Cout "FSM2: 1 2 3 r q? ";
       Cout ("FSM1 is on" +:+ endl); Cout ("FSM2 is off" +:+ endl);
       Cout "FSM1: 1 2 3 r q? "].
Proof. by vm_compute. Qed.

End multiple_instances_example_facts.
